(** * Scaling examples: cache, batch queue and autoscaler

    A shallow embedding of three classes of [scaling_examples.py]:
    [CachingLayer], [BatchProcessor] and [AutoScaler].

    Conventions of the embedding.
    - Python [int] is [Z]; Python [float] is [Q].  Every float operation
      the three classes perform is a comparison, one subtraction of two
      clock readings, or one true division of two counters; they are
      modelled by the exact rational operation.
    - A [dict] whose insertion order the code relies on (the cache, a
      feature mapping) is an association list with distinct keys, oldest
      binding first.  The metrics mapping, which is only read through
      [get], is a [gmap].
    - A method is a function from the object's state to an outcome and the
      new state.  An exception leaves the mutations done so far in place,
      as in Python.
    - The model object is external.  Its two methods are fields of a
      record that also keeps the history of the calls it received, so that
      "the model is not invoked" is a statement about the state. *)

From Stdlib Require Import ZArith QArith String List Permutation Sorted Lia.
From stdpp Require Import base list strings pretty gmap.

Open Scope Z_scope.

(** ** Python primitives *)

Module Py.

(** The exceptions that the modelled code can raise.  [ModelError] is
    whatever the external model raises. *)
Inductive exn : Type :=
| StopIteration
| KeyError
| IndexError
| ZeroDivisionError
| ModelError.

(** A computation on an object of state [S]: an outcome and the state
    after it. *)
Definition M (S A : Type) : Type := S -> (exn + A) * S.

Definition ret {S A} (a : A) : M S A := fun s => (inr a, s).

Definition raise {S A} (e : exn) : M S A := fun s => (inl e, s).

Definition bind {S A B} (c : M S A) (k : A -> M S B) : M S B :=
  fun s =>
    match c s with
    | (inl e, s') => (inl e, s')
    | (inr a, s') => k a s'
    end.

Definition gets {S A} (f : S -> A) : M S A := fun s => (inr (f s), s).

Definition modify {S} (f : S -> S) : M S unit := fun s => (inr tt, f s).

Definition lift {S A} (r : exn + A) : M S A := fun s => (r, s).

(** [a > b], [a >= b] and [a < b] on floats. *)
Definition Qgeb (a b : Q) : bool := Qle_bool b a.
Definition Qgtb (a b : Q) : bool := negb (Qle_bool a b).
Definition Qltb (a b : Q) : bool := negb (Qle_bool b a).

(** [a / b] on two ints: a float, or [ZeroDivisionError]. *)
Definition truediv (a b : Z) : exn + Q :=
  if b =? 0 then inl ZeroDivisionError else inr (inject_Z a / inject_Z b)%Q.

(** The value of an expression that is an int on one branch and a float
    on the other. *)
Inductive number : Type :=
| Int (z : Z)
| Float (q : Q).

Section Dict.
Context {V : Type}.

(** [k in d] *)
Fixpoint dict_contains (d : list (string * V)) (k : string) : bool :=
  match d with
  | [] => false
  | (k', _) :: d' => if String.eqb k' k then true else dict_contains d' k
  end.

(** [d[k]] *)
Fixpoint dict_getitem (d : list (string * V)) (k : string) : exn + V :=
  match d with
  | [] => inl KeyError
  | (k', v) :: d' => if String.eqb k' k then inr v else dict_getitem d' k
  end.

(** [d[k] = v]: an existing key keeps its position, a new key goes
    last. *)
Fixpoint dict_setitem (d : list (string * V)) (k : string) (v : V)
  : list (string * V) :=
  match d with
  | [] => [(k, v)]
  | (k', v') :: d' =>
      if String.eqb k' k then (k, v) :: d'
      else (k', v') :: dict_setitem d' k v
  end.

(** [del d[k]] *)
Fixpoint dict_delitem (d : list (string * V)) (k : string)
  : exn + list (string * V) :=
  match d with
  | [] => inl KeyError
  | (k', v') :: d' =>
      if String.eqb k' k then inr d'
      else match dict_delitem d' k with
           | inl e => inl e
           | inr d'' => inr ((k', v') :: d'')
           end
  end.

(** [next(iter(d))]: the oldest key. *)
Definition next_iter (d : list (string * V)) : exn + string :=
  match d with
  | [] => inl StopIteration
  | (k, _) :: _ => inr k
  end.

(** [len(d)] *)
Definition len {A} (l : list A) : Z := Z.of_nat (length l).

Definition keys (d : list (string * V)) : list string := map fst d.
End Dict.

(** [a[0]] on an array. *)
Definition index0 {A} (a : list A) : exn + A :=
  match a with
  | [] => inl IndexError
  | x :: _ => inr x
  end.

(** [l[:n]] and [l[n:]]; a negative [n] counts from the end. *)
Definition slice_to {A} (n : Z) (l : list A) : list A :=
  if 0 <=? n then take (Z.to_nat n) l
  else take (Z.to_nat (len l + n)) l.

Definition slice_from {A} (n : Z) (l : list A) : list A :=
  if 0 <=? n then drop (Z.to_nat n) l
  else drop (Z.to_nat (len l + n)) l.

(** What the interpreter and [hashlib] supply to [_hash_features]: the
    type of feature values ([Any]), [repr] of a key and of a value, the
    order [<] on values (consulted by tuple comparison only when two
    keys are equal), and the MD5 hex digest. *)
Class Runtime : Type := {
  Value : Type;
  repr_str : string -> string;
  repr_value : Value -> string;
  value_lt : Value -> Value -> bool;
  md5_hexdigest : string -> string
}.

Section Sorted.
Context `{Runtime}.

(** [Dict[str, Any]], in insertion order. *)
Definition Features : Type := list (string * Value).

(** One row per request. *)
Definition DataFrame : Type := list Features.

(** [a < b] on [(key, value)] tuples. *)
Definition tuple_lt (a b : string * Value) : bool :=
  if String.eqb (fst a) (fst b) then value_lt (snd a) (snd b)
  else String.ltb (fst a) (fst b).

Fixpoint insert_sorted (x : string * Value) (l : list (string * Value))
  : list (string * Value) :=
  match l with
  | [] => [x]
  | y :: l' => if tuple_lt y x then y :: insert_sorted x l' else x :: y :: l'
  end.

(** [sorted(items)]: a stable sort that uses [<] only. *)
Definition sorted (items : list (string * Value)) : list (string * Value) :=
  foldr insert_sorted [] items.

(** [repr] of a tuple and [str] of a list of tuples. *)
Definition repr_tuple (t : string * Value) : string :=
  "(" ++ repr_str (fst t) ++ ", " ++ repr_value (snd t) ++ ")".

Fixpoint join (sep : string) (l : list string) : string :=
  match l with
  | [] => ""
  | [x] => x
  | x :: l' => x ++ sep ++ join sep l'
  end.

Definition str_list (l : list (string * Value)) : string :=
  "[" ++ join ", " (map repr_tuple l) ++ "]".
End Sorted.

(** Sequencing is written [x ← c; k] and [c;; k]. *)
#[global] Instance M_ret {S} : MRet (M S) := fun A => ret.
#[global] Instance M_bind {S} : MBind (M S) := fun A B k c => bind c k.

End Py.

Import Py.

(** ** The external model *)

Module Model.
Section Model.
Context `{Runtime}.

Inductive call : Type :=
| Predict (df : DataFrame)
| PredictProba (df : DataFrame).

(** [predict] and [predict_proba] of the model object, and the calls it
    has received so far, oldest first. *)
Record t : Type := {
  predict : DataFrame -> exn + list Z;
  predict_proba : DataFrame -> exn + list (list Q);
  received : list call
}.

Definition record (c : call) (m : t) : t :=
  {| predict := predict m; predict_proba := predict_proba m;
     received := received m ++ [c] |}.
End Model.
End Model.

(** ** [class CachingLayer] *)

Module CachingLayer.
Section CachingLayer.
Context `{Runtime}.

(** The dict that [predict] returns and caches. *)
Record Result : Type := {
  prediction : Z;
  probability : list Q
}.

Record t : Type := {
  model : Model.t;
  cache : list (string * Result);
  cache_size : Z;
  hits : Z;
  misses : Z
}.

Definition __init__ (model : Model.t) (cache_size : Z) : exn + t :=
  inr {| model := model; cache := []; cache_size := cache_size;
         hits := 0; misses := 0 |}.

Definition _hash_features (features : Features) : string :=
  let feature_str := str_list (sorted features) in
  md5_hexdigest feature_str.

Definition set_model (m : Model.t) (s : t) : t :=
  {| model := m; cache := cache s; cache_size := cache_size s;
     hits := hits s; misses := misses s |}.

Definition set_cache (c : list (string * Result)) (s : t) : t :=
  {| model := model s; cache := c; cache_size := cache_size s;
     hits := hits s; misses := misses s |}.

Definition incr_hits (s : t) : t :=
  {| model := model s; cache := cache s; cache_size := cache_size s;
     hits := hits s + 1; misses := misses s |}.

Definition incr_misses (s : t) : t :=
  {| model := model s; cache := cache s; cache_size := cache_size s;
     hits := hits s; misses := misses s + 1 |}.

(** [self.model.predict(df)] and [self.model.predict_proba(df)]: the
    call is recorded, then its outcome is the model's. *)
Definition model_predict (df : DataFrame) : M t (list Z) :=
  (m ← gets model;
   modify (set_model (Model.record (Model.Predict df) m));;
   lift (Model.predict m df)).

Definition model_predict_proba (df : DataFrame) : M t (list (list Q)) :=
  (m ← gets model;
   modify (set_model (Model.record (Model.PredictProba df) m));;
   lift (Model.predict_proba m df)).

Definition predict (features : Features) : M t Result :=
  (let cache_key := _hash_features features in
   c ← gets cache;
   if dict_contains c cache_key then
     modify incr_hits;;
     c ← gets cache;
     lift (dict_getitem c cache_key)
   else
     modify incr_misses;;
     let df := [features] in
     predictions ← model_predict df;
     prediction ← lift (index0 predictions);
     probabilities ← model_predict_proba df;
     probability ← lift (index0 probabilities);
     let result := {| prediction := prediction;
                      probability := probability |} in
     c ← gets cache;
     sz ← gets cache_size;
     (if len c >=? sz then
        oldest_key ← lift (next_iter c);
        c' ← lift (dict_delitem c oldest_key);
        modify (set_cache c')
      else ret tt);;
     c ← gets cache;
     modify (set_cache (dict_setitem c cache_key result));;
     ret result).

Record Stats : Type := {
  stat_cache_size : Z;
  stat_hits : Z;
  stat_misses : Z;
  stat_hit_rate : number
}.

Definition get_cache_stats : M t Stats :=
  (h ← gets hits;
   m ← gets misses;
   let total := h + m in
   hit_rate ← (if total >? 0
                then q ← lift (truediv h total); ret (Float q)
                else ret (Int 0));
   c ← gets cache;
   ret {| stat_cache_size := len c; stat_hits := h;
          stat_misses := m; stat_hit_rate := hit_rate |}).

(** The state after a sequence of [predict] calls, whatever each call
    returned or raised. *)
Definition run (requests : list Features) (s : t) : t :=
  foldl (fun s f => snd (predict f s)) s requests.

(** The states a caching layer created with [cache_size] can be in. *)
Inductive reachable (m : Model.t) (size : Z) : t -> Prop :=
| reach_init s : __init__ m size = inr s -> reachable m size s
| reach_predict s f :
    reachable m size s -> reachable m size (snd (predict f s)).

(** A call of [predict] stored a new entry when its key was absent
    before the call and is present after it. *)
Definition stored (f : Features) (s : t) : bool :=
  negb (dict_contains (cache s) (_hash_features f))
  && dict_contains (cache (snd (predict f s))) (_hash_features f).

(** The keys stored by a sequence of calls, oldest first. *)
Fixpoint insertions (requests : list Features) (s : t) : list string :=
  match requests with
  | [] => []
  | f :: rest =>
      (if stored f s then [_hash_features f] else [])
      ++ insertions rest (snd (predict f s))
  end.

(** The last [n] elements of a list. *)
Definition last_n {A} (n : Z) (l : list A) : list A :=
  drop (length l - Z.to_nat n)%nat l.

(** The model answers a one-row frame made of [f]: both methods return
    and their arrays have a first element. *)
Definition answers (m : Model.t) (f : Features) : Prop :=
  (exists p ps, Model.predict m [f] = inr (p :: ps)) /\
  (exists q qs, Model.predict_proba m [f] = inr (q :: qs)).
End CachingLayer.
End CachingLayer.

(** ** [class BatchProcessor] *)

Module BatchProcessor.
Section BatchProcessor.
Context `{Runtime}.

Record t : Type := {
  model : Model.t;
  batch_size : Z;
  max_wait_time : Q;
  batch_queue : list Features;
  last_batch_time : Q
}.

(** [now] is the reading of [time.time()] taken by the constructor. *)
Definition __init__ (model : Model.t) (batch_size : Z) (max_wait_time : Q)
  (now : Q) : exn + t :=
  inr {| model := model; batch_size := batch_size;
         max_wait_time := max_wait_time; batch_queue := [];
         last_batch_time := now |}.

Definition set_model (m : Model.t) (s : t) : t :=
  {| model := m; batch_size := batch_size s;
     max_wait_time := max_wait_time s; batch_queue := batch_queue s;
     last_batch_time := last_batch_time s |}.

Definition set_batch_queue (q : list Features) (s : t) : t :=
  {| model := model s; batch_size := batch_size s;
     max_wait_time := max_wait_time s; batch_queue := q;
     last_batch_time := last_batch_time s |}.

Definition set_last_batch_time (now : Q) (s : t) : t :=
  {| model := model s; batch_size := batch_size s;
     max_wait_time := max_wait_time s; batch_queue := batch_queue s;
     last_batch_time := now |}.

Definition model_predict (df : DataFrame) : M t (list Z) :=
  (m ← gets model;
   modify (set_model (Model.record (Model.Predict df) m));;
   lift (Model.predict m df)).

Definition model_predict_proba (df : DataFrame) : M t (list (list Q)) :=
  (m ← gets model;
   modify (set_model (Model.record (Model.PredictProba df) m));;
   lift (Model.predict_proba m df)).

(** [finished] is the reading of [time.time()] taken after the model
    has answered.  The result is [None] for the bare [return]. *)
Definition _process_batch (finished : Q)
  : M t (option (list Z * list (list Q))) :=
  (q ← gets batch_queue;
   if q is [] then ret None
   else
     sz ← gets batch_size;
     let batch := slice_to sz q in
     q ← gets batch_queue;
     modify (set_batch_queue (slice_from sz q));;
     let df := batch in
     predictions ← model_predict df;
     probabilities ← model_predict_proba df;
     modify (set_last_batch_time finished);;
     ret (Some (predictions, probabilities))).

(** [now] is the reading of [time.time()] in the flush test, [finished]
    the one taken by [_process_batch]. *)
Definition add_request (features : Features) (now finished : Q)
  : M t unit :=
  (q ← gets batch_queue;
   modify (set_batch_queue (q ++ [features]));;
   q ← gets batch_queue;
   sz ← gets batch_size;
   last ← gets last_batch_time;
   wait ← gets max_wait_time;
   let should_process :=
     (len q >=? sz) || Qgeb (now - last) wait in
   if should_process && (if q is [] then false else true) then
     _process_batch finished;; ret tt
   else ret tt).

(** The state after a sequence of arrivals, each with the two clock
    readings of its [add_request]. *)
Definition run (arrivals : list (Features * Q * Q)) (s : t) : t :=
  foldl (fun s '(f, now, finished) => snd (add_request f now finished s))
    s arrivals.

(** The calls the model received between two states of the processor. *)
Definition new_calls (s s' : t) : list Model.call :=
  drop (length (Model.received (model s))) (Model.received (model s')).

(** The flush rule in the words of the specification: the batch is
    flushed when it holds [batch_size] items or when [max_wait_time]
    has passed since [opened_at], the time of arrival of the first
    item of the batch. *)
Definition spec_flush (batch_size : Z) (max_wait_time : Q)
  (items : Z) (opened_at now : Q) : bool :=
  (items =? batch_size) || Qgeb (now - opened_at) max_wait_time.

(** An arrival completed a flush when the model was called during it and
    [add_request] returned. *)
Definition completed_flush (features : Features) (now finished : Q) (s : t)
  : bool :=
  match fst (add_request features now finished s),
        new_calls s (snd (add_request features now finished s)) with
  | inr _, _ :: _ => true
  | _, _ => false
  end.

(** The clock reading taken at the end of the last flush that the
    arrivals completed, or [since] when they completed none. *)
Fixpoint last_flush_end (since : Q) (arrivals : list (Features * Q * Q))
  (s : t) : Q :=
  match arrivals with
  | [] => since
  | (f, now, finished) :: rest =>
      last_flush_end
        (if completed_flush f now finished s then finished else since)
        rest (snd (add_request f now finished s))
  end.
End BatchProcessor.
End BatchProcessor.

(** ** [class AutoScaler] *)

Module AutoScaler.

Record t : Type := {
  min_instances : Z;
  max_instances : Z;
  target_cpu : Q;
  scale_up_threshold : Q;
  scale_down_threshold : Q;
  current_instances : Z
}.

(** The default values of the constructor's arguments. *)
Definition default_min_instances : Z := 1.
Definition default_max_instances : Z := 10.
Definition default_target_cpu : Q := 0.7.
Definition default_scale_up_threshold : Q := 0.8.
Definition default_scale_down_threshold : Q := 0.5.

Definition __init__ (min_instances max_instances : Z)
  (target_cpu scale_up_threshold scale_down_threshold : Q) : exn + t :=
  inr {| min_instances := min_instances; max_instances := max_instances;
         target_cpu := target_cpu;
         scale_up_threshold := scale_up_threshold;
         scale_down_threshold := scale_down_threshold;
         current_instances := min_instances |}.

Definition set_current_instances (n : Z) (s : t) : t :=
  {| min_instances := min_instances s; max_instances := max_instances s;
     target_cpu := target_cpu s;
     scale_up_threshold := scale_up_threshold s;
     scale_down_threshold := scale_down_threshold s;
     current_instances := n |}.

(** [metrics.get(key, dflt)] *)
Definition get (metrics : gmap string Q) (key : string) (dflt : Q) : Q :=
  match metrics !! key with
  | Some v => v
  | None => dflt
  end.

Definition should_scale (metrics : gmap string Q) : M t Z :=
  (let cpu_usage := get metrics "cpu_usage" 0 in
   let request_rate := get metrics "request_rate" 0 in
   let avg_latency := get metrics "avg_latency_ms" 0 in
   up ← gets scale_up_threshold;
   if Qgtb cpu_usage up || Qgtb avg_latency 1000 || Qgtb request_rate 100
   then
     cur ← gets current_instances;
     top ← gets max_instances;
     if cur <? top then
       let new_instances := Z.min (cur + 1) top in
       modify (set_current_instances new_instances);;
       ret 1
     else ret 0
   else
     down ← gets scale_down_threshold;
     if Qltb cpu_usage down && Qltb avg_latency 100 && Qltb request_rate 10
     then
       cur ← gets current_instances;
       bottom ← gets min_instances;
       if cur >? bottom then
         let new_instances := Z.max (cur - 1) bottom in
         modify (set_current_instances new_instances);;
         ret (-1)
       else ret 0
     else ret 0).

(** The states a scaler built from the given arguments can be in. *)
Inductive reachable (lo hi : Z) (cpu up down : Q) : t -> Prop :=
| reach_init s : __init__ lo hi cpu up down = inr s -> reachable lo hi cpu up down s
| reach_scale s metrics :
    reachable lo hi cpu up down s ->
    reachable lo hi cpu up down (snd (should_scale metrics s)).

(** The outcome of each call of a sequence and the instance count after
    it. *)
Fixpoint trace (calls : list (gmap string Q)) (s : t)
  : list ((exn + Z) * Z) :=
  match calls with
  | [] => []
  | metrics :: rest =>
      let (r, s') := should_scale metrics s in
      (r, current_instances s') :: trace rest s'
  end.

(** A metrics mapping where every key that [should_scale] reads is
    present: an absent one is bound to 0. *)
Definition with_defaults (metrics : gmap string Q) : gmap string Q :=
  <["cpu_usage" := get metrics "cpu_usage" 0]>
    (<["request_rate" := get metrics "request_rate" 0]>
       (<["avg_latency_ms" := get metrics "avg_latency_ms" 0]> metrics)).
End AutoScaler.

(** ** Concrete instances

    A small runtime, model and a few requests on which the definitions
    above can be evaluated. *)

Module Demo.

(** Feature values are ints; the digest is the identity, so that
    different strings have different digests. *)
Definition runtime : Runtime := {|
  Value := Z;
  repr_str := fun s => ("'" ++ s ++ "'")%string;
  repr_value := fun z => pretty z;
  value_lt := Z.ltb;
  md5_hexdigest := fun s => s
|}.

(** A model that answers class 1 with probabilities [0.5, 0.5] for
    every row. *)
Definition model : @Model.t runtime := {|
  Model.predict := fun df => inr (map (fun _ => 1) df);
  Model.predict_proba := fun df => inr (map (fun _ => [0.5; 0.5]%Q) df);
  Model.received := []
|}.

Definition req (x : Z) : @Features runtime := [("x"%string, x)].

Definition a : @Features runtime := req 1.
Definition b : @Features runtime := req 2.
Definition c : @Features runtime := req 3.

(** The same mapping with its two keys inserted in either order. *)
Definition xy : @Features runtime := [("x"%string, 1); ("y"%string, 2)].
Definition yx : @Features runtime := [("y"%string, 2); ("x"%string, 1)].

Definition cache2 : @CachingLayer.t runtime :=
  {| CachingLayer.model := model; CachingLayer.cache := [];
     CachingLayer.cache_size := 2; CachingLayer.hits := 0;
     CachingLayer.misses := 0 |}.

(** [BatchProcessor(model, batch_size=3, max_wait_time=10)] built when
    the clock reads 0. *)
Definition batcher : @BatchProcessor.t runtime :=
  {| BatchProcessor.model := model; BatchProcessor.batch_size := 3;
     BatchProcessor.max_wait_time := 10;
     BatchProcessor.batch_queue := [];
     BatchProcessor.last_batch_time := 0 |}.

(** [{'cpu_usage': 0.9, 'request_rate': 150, 'avg_latency_ms': 1200}] *)
Definition busy : gmap string Q :=
  {[ "cpu_usage"%string := 0.9%Q;
     "request_rate"%string := 150%Q;
     "avg_latency_ms"%string := 1200%Q ]}.

(** [AutoScaler(min_instances=1, max_instances=5)] *)
Definition scaler : AutoScaler.t :=
  {| AutoScaler.min_instances := 1; AutoScaler.max_instances := 5;
     AutoScaler.target_cpu := AutoScaler.default_target_cpu;
     AutoScaler.scale_up_threshold := AutoScaler.default_scale_up_threshold;
     AutoScaler.scale_down_threshold :=
       AutoScaler.default_scale_down_threshold;
     AutoScaler.current_instances := 1 |}.

(** [AutoScaler(scale_up_threshold=-0.5)] after one scale-up: two
    instances, one above the minimum. *)
Definition eager_scaler : AutoScaler.t :=
  {| AutoScaler.min_instances := 1; AutoScaler.max_instances := 10;
     AutoScaler.target_cpu := AutoScaler.default_target_cpu;
     AutoScaler.scale_up_threshold := (-0.5)%Q;
     AutoScaler.scale_down_threshold :=
       AutoScaler.default_scale_down_threshold;
     AutoScaler.current_instances := 2 |}.
End Demo.

(** ** More Python primitives

    The rest of the file embeds [DistributedDataProcessing],
    [LoadBalancer] and the data split of [DistributedTraining].  They
    use [ValueError], list indexing, [min], [list.index], [%], [//],
    [range], two-sided slices, a process pool and [pd.concat].
    [AsyncModelServing] runs on the event loop and reads the clock; it is
    not embedded. *)

Module Builtins.

(** The exceptions above and [ValueError]. *)
Inductive error : Type :=
| Builtin (e : exn)
| ValueError.

(** A computation on an object of state [S] that may raise an [error]. *)
Definition X (S A : Type) : Type := S -> (error + A) * S.

#[global] Instance X_ret {S} : MRet (X S) := fun A a s => (inr a, s).
#[global] Instance X_bind {S} : MBind (X S) :=
  fun A B k c s =>
    match c s with
    | (inl e, s') => (inl e, s')
    | (inr a, s') => k a s'
    end.

Definition xgets {S A} (f : S -> A) : X S A := fun s => (inr (f s), s).
Definition xmodify {S} (f : S -> S) : X S unit := fun s => (inr tt, f s).
Definition xlift {S A} (r : error + A) : X S A := fun s => (r, s).

(** An outcome of the code above, as an outcome of the code below. *)
Definition builtin {A} (r : exn + A) : error + A :=
  match r with
  | inl e => inl (Builtin e)
  | inr a => inr a
  end.

(** The position that index [i] denotes in a list of length [n]: a
    negative index counts from the end. *)
Definition position (n : nat) (i : Z) : option nat :=
  if (0 <=? i) && (i <? Z.of_nat n) then Some (Z.to_nat i)
  else if (- Z.of_nat n <=? i) && (i <? 0) then Some (Z.to_nat (Z.of_nat n + i))
  else None.

(** [l[i]] *)
Definition list_getitem {A} (l : list A) (i : Z) : error + A :=
  match position (length l) i with
  | Some k =>
      match l !! k with
      | Some x => inr x
      | None => inl (Builtin IndexError)
      end
  | None => inl (Builtin IndexError)
  end.

(** [l[i] = x] *)
Definition list_setitem {A} (l : list A) (i : Z) (x : A) : error + list A :=
  match position (length l) i with
  | Some k => inr (<[k := x]> l)
  | None => inl (Builtin IndexError)
  end.

(** [min(l)] *)
Definition list_min (l : list Z) : error + Z :=
  match l with
  | [] => inl ValueError
  | x :: l' => inr (foldl Z.min x l')
  end.

(** [l.index(x)] *)
Fixpoint list_index (l : list Z) (x : Z) : error + Z :=
  match l with
  | [] => inl ValueError
  | y :: l' =>
      if y =? x then inr 0
      else match list_index l' x with
           | inl e => inl e
           | inr i => inr (i + 1)
           end
  end.

(** [a % b] and [a // b] on ints; both round towards minus infinity. *)
Definition mod_ (a b : Z) : error + Z :=
  if b =? 0 then inl (Builtin ZeroDivisionError) else inr (a mod b).

Definition floordiv (a b : Z) : error + Z :=
  if b =? 0 then inl (Builtin ZeroDivisionError) else inr (a / b).

(** [len(range(start, stop, step))] for a step that is not 0. *)
Definition range_len (start stop step : Z) : Z :=
  if 0 <? step then Z.max 0 ((stop - start + step - 1) / step)
  else Z.max 0 ((start - stop - step - 1) / (- step)).

(** [list(range(start, stop, step))] *)
Definition range (start stop step : Z) : error + list Z :=
  if step =? 0 then inl ValueError
  else inr (map (fun k => start + Z.of_nat k * step)
              (seq 0 (Z.to_nat (range_len start stop step)))).

(** The bound [i] of a slice of a list of length [n]: a negative bound
    counts from the end, and both are clipped to the list. *)
Definition bound (n : Z) (i : Z) : Z :=
  if i <? 0 then Z.max 0 (n + i) else Z.min i n.

(** [l[a:b]] *)
Definition slice {A} (a b : Z) (l : list A) : list A :=
  let lo := bound (len l) a in
  let hi := bound (len l) b in
  take (Z.to_nat (hi - lo)) (drop (Z.to_nat lo) l).

(** [Pool(processes=n)]: the pool refuses fewer than one process. *)
Definition Pool (processes : Z) : error + unit :=
  if processes <? 1 then inl ValueError else inr tt.

(** [pool.map(f, items)] for a function that returns: the results in the
    order of the items. *)
Definition pool_map {A B} (f : A -> B) (items : list A) : list B :=
  map f items.

(** [pd.concat(frames, ignore_index=True)]: the rows of the frames in
    order; no frame at all is an error. *)
Definition pd_concat {A} (frames : list (list A)) : error + list A :=
  match frames with
  | [] => inl ValueError
  | _ => inr (concat frames)
  end.

End Builtins.

Import Builtins.

(** ** [class DistributedDataProcessing] *)

Module DistributedDataProcessing.
Section DistributedDataProcessing.
Context `{Runtime}.

(** A frame is the list of its rows, a row maps column names to values.
    [row_sum] is what [sum(axis=1)] gives for one row of a frame that it
    accepts. *)
Context (row_sum : Features -> Value).

(** The copy of the chunk gets the column ['processed']: last if it is
    new, in place if the chunk has it. *)
Definition process_chunk (chunk_data : DataFrame) : DataFrame :=
  map (fun row => dict_setitem row "processed" (row_sum row)) chunk_data.

(** The list [chunks] of [process_parallel]. *)
Definition split (data : DataFrame) (n_workers : Z)
  : error + list DataFrame :=
  match floordiv (len data) n_workers with
  | inl e => inl e
  | inr chunk_size =>
      match range 0 (len data) chunk_size with
      | inl e => inl e
      | inr starts =>
          inr (map (fun i => slice i (i + chunk_size) data) starts)
      end
  end.

Definition process_parallel (data : DataFrame) (n_workers : Z)
  : error + DataFrame :=
  match split data n_workers with
  | inl e => inl e
  | inr chunks =>
      match Pool n_workers with
      | inl e => inl e
      | inr _ =>
          let results := pool_map process_chunk chunks in
          pd_concat results
      end
  end.
End DistributedDataProcessing.
End DistributedDataProcessing.

(** ** [class LoadBalancer] *)

Module LoadBalancer.
Section LoadBalancer.
Context `{Runtime}.

(** The instances are model objects; the balancer only reads their
    [predict]. *)
Record t : Type := {
  instances : list Model.t;
  current_index : Z;
  request_counts : list Z
}.

Definition __init__ (model_instances : list Model.t) : t :=
  {| instances := model_instances;
     current_index := 0;
     request_counts := replicate (length model_instances) 0 |}.

Definition set_current_index (i : Z) (s : t) : t :=
  {| instances := instances s; current_index := i;
     request_counts := request_counts s |}.

Definition set_request_counts (c : list Z) (s : t) : t :=
  {| instances := instances s; current_index := current_index s;
     request_counts := c |}.

(** [self.request_counts[i] += 1] *)
Definition incr_count (i : Z) : X t unit :=
  c ← xgets request_counts;
  n ← xlift (list_getitem c i);
  c ← xgets request_counts;
  c' ← xlift (list_setitem c i (n + 1));
  xmodify (set_request_counts c').

Definition get_instance (strategy : string) : X t Model.t :=
  if String.eqb strategy "round_robin" then
    l ← xgets instances;
    i ← xgets current_index;
    instance ← xlift (list_getitem l i);
    l ← xgets instances;
    i ← xgets current_index;
    j ← xlift (mod_ (i + 1) (len l));
    xmodify (set_current_index j);;
    i ← xgets current_index;
    incr_count i;;
    mret instance
  else if String.eqb strategy "least_connections" then
    c ← xgets request_counts;
    least ← xlift (list_min c);
    c ← xgets request_counts;
    min_index ← xlift (list_index c least);
    incr_count min_index;;
    l ← xgets instances;
    xlift (list_getitem l min_index)
  else
    xlift (inl ValueError).

(** The dict with the one key ['prediction']. *)
Record Reply : Type := { prediction : Z }.

Definition predict (features : Features) (strategy : string) : X t Reply :=
  instance ← get_instance strategy;
  let df := [features] in
  predictions ← xlift (builtin (Model.predict instance df));
  p ← xlift (builtin (index0 predictions));
  mret {| prediction := p |}.

(** The outcomes of a sequence of [get_instance] calls and the state
    after them. *)
Fixpoint route (strategies : list string) (s : t)
  : list (error + Model.t) * t :=
  match strategies with
  | [] => ([], s)
  | strategy :: rest =>
      let (r, s') := get_instance strategy s in
      let (rs, s'') := route rest s' in
      (r :: rs, s'')
  end.

(** What the instance routed to answers: [instance.predict(df)[0]] as
    the reply dict. *)
Definition reply_of (instance : Model.t) (features : Features)
  : error + Reply :=
  match builtin (Model.predict instance [features]) with
  | inl e => inl e
  | inr predictions =>
      match builtin (index0 predictions) with
      | inl e => inl e
      | inr p => inr {| prediction := p |}
      end
  end.

(** The outcomes of a sequence of [predict] calls with one strategy and
    the state after them. *)
Fixpoint serve (strategy : string) (requests : list Features) (s : t)
  : list (error + Reply) * t :=
  match requests with
  | [] => ([], s)
  | features :: rest =>
      let (r, s') := predict features strategy s in
      let (rs, s'') := serve strategy rest s' in
      (r :: rs, s'')
  end.

(** A balancer over the instances [l] between two calls: the index
    points into [l] and there is one count, not negative, per
    instance. *)
Definition well_formed (l : list Model.t) (s : t) : Prop :=
  instances s = l /\
  0 <= current_index s < len l /\
  length (request_counts s) = length l /\
  Forall (fun c => 0 <= c) (request_counts s).

(** A strategy that [get_instance] knows. *)
Definition known (strategy : string) : bool :=
  String.eqb strategy "round_robin"
  || String.eqb strategy "least_connections".

(** [sum(l)] *)
Definition total (l : list Z) : Z := foldr Z.add 0 l.
End LoadBalancer.
End LoadBalancer.

(** ** [class DistributedTraining] *)

Module DistributedTraining.
Section DistributedTraining.
Context `{Runtime}.

(** The labels [y] are a series of ints. *)

(** The list [chunks] of [train_distributed]. *)
Definition split (X : DataFrame) (y : list Z) (n_workers : Z)
  : error + list (DataFrame * list Z) :=
  match floordiv (len X) n_workers with
  | inl e => inl e
  | inr chunk_size =>
      match range 0 (len X) chunk_size with
      | inl e => inl e
      | inr starts =>
          inr (map (fun i => (slice i (i + chunk_size) X,
                              slice i (i + chunk_size) y)) starts)
      end
  end.

End DistributedTraining.
End DistributedTraining.

(** ** Traces of the batch processor *)

Module BatchTrace.
Section BatchTrace.
Context `{Runtime}.

(** The frames handed to [model.predict], oldest first. *)
Fixpoint predicted (calls : list Model.call) : list DataFrame :=
  match calls with
  | [] => []
  | Model.Predict df :: rest => df :: predicted rest
  | Model.PredictProba _ :: rest => predicted rest
  end.

(** The requests of a sequence of arrivals. *)
Definition requests (arrivals : list (Features * Q * Q)) : list Features :=
  map (fun '(f, _, _) => f) arrivals.
End BatchTrace.
End BatchTrace.

(** ** More concrete instances *)

Module Samples.

(** Three distinguishable models: each answers its own class. *)
Definition model_of (k : Z) : @Model.t Demo.runtime := {|
  Model.predict := fun df => inr (map (fun _ => k) df);
  Model.predict_proba := fun df => inr (map (fun _ => [1]%Q) df);
  Model.received := []
|}.

Definition balancer : @LoadBalancer.t Demo.runtime :=
  LoadBalancer.__init__ [model_of 0; model_of 1; model_of 2].

(** A frame of five rows and the sum of the single column. *)
Definition frame : @DataFrame Demo.runtime := map Demo.req [1; 2; 3; 4; 5].

Definition row_sum (row : @Features Demo.runtime) : Z :=
  foldr (fun kv acc => snd kv + acc) 0 row.

(** A model that raises on every call. *)
Definition broken : @Model.t Demo.runtime := {|
  Model.predict := fun _ => inl ModelError;
  Model.predict_proba := fun _ => inl ModelError;
  Model.received := []
|}.
End Samples.

(** * Properties *)

(** Unfolds the sequencing of a method body down to state passing. *)
Ltac step_m :=
  cbv [mbind mret M_bind M_ret Py.bind Py.ret Py.gets Py.modify Py.lift
       Py.raise].

(** Replaces a boolean integer test by the comparison it decides. *)
Ltac zify_bool :=
  repeat match goal with
    | H : (_ <? _) = true |- _ => apply Z.ltb_lt in H
    | H : (_ <? _) = false |- _ => apply Z.ltb_ge in H
    | H : (_ >? _) = true |- _ => rewrite Z.gtb_ltb in H; apply Z.ltb_lt in H
    | H : (_ >? _) = false |- _ => rewrite Z.gtb_ltb in H; apply Z.ltb_ge in H
    | H : (_ >=? _) = true |- _ => rewrite Z.geb_leb in H; apply Z.leb_le in H
    | H : (_ >=? _) = false |- _ => rewrite Z.geb_leb in H; apply Z.leb_gt in H
    | H : (_ <=? _) = true |- _ => apply Z.leb_le in H
    | H : (_ <=? _) = false |- _ => apply Z.leb_gt in H
    | H : (_ =? _) = true |- _ => apply Z.eqb_eq in H
    | H : (_ =? _) = false |- _ => apply Z.eqb_neq in H
    end.

(** ** AutoScaler *)

Section AutoScalerFacts.
Import AutoScaler.

(** [should_scale] changes nothing but the instance count. *)
Lemma should_scale_frame metrics s :
  let s' := snd (should_scale metrics s) in
  min_instances s' = min_instances s /\
  max_instances s' = max_instances s /\
  target_cpu s' = target_cpu s /\
  scale_up_threshold s' = scale_up_threshold s /\
  scale_down_threshold s' = scale_down_threshold s.
Proof.
  unfold should_scale. step_m.
  repeat match goal with
    | |- context [if ?b then _ else _] => destruct b
    end; simpl; auto.
Qed.

(** One decision keeps the count within the bounds it was in. *)
Lemma should_scale_bounds metrics s :
  min_instances s <= current_instances s <= max_instances s ->
  min_instances s <= current_instances (snd (should_scale metrics s))
    <= max_instances s.
Proof.
  intros Hb. unfold should_scale. step_m.
  repeat match goal with
    | |- context [if ?b then _ else _] => destruct b eqn:?
    end; simpl; zify_bool; lia.
Qed.

(** One decision moves the count by +1, -1 or 0, and the value returned
    is that move. *)
Lemma should_scale_delta metrics s :
  exists d, fst (should_scale metrics s) = inr d /\
    current_instances (snd (should_scale metrics s))
      = current_instances s + d /\
    (d = 1 \/ d = -1 \/ d = 0).
Proof.
  unfold should_scale. step_m.
  repeat match goal with
    | |- context [if ?b then _ else _] => destruct b eqn:?
    end; simpl; zify_bool;
    (eexists; split; [reflexivity|]; split; [lia|lia]).
Qed.

(** C4: for a scaler built with [min_instances <= max_instances], in
    every state reached by any sequence of [should_scale] calls with any
    metrics, the bounds are the ones given to the constructor and
    [min_instances <= current_instances <= max_instances]. *)
Theorem C4_instances_within_bounds lo hi cpu up down s :
  lo <= hi ->
  reachable lo hi cpu up down s ->
  min_instances s = lo /\ max_instances s = hi /\
  lo <= current_instances s <= hi.
Proof.
  intros Hle Hr. induction Hr as [s Hinit | s metrics Hr IH].
  - unfold __init__ in Hinit. injection Hinit as <-. simpl. lia.
  - destruct IH as (Hlo & Hhi & Hcur).
    destruct (should_scale_frame metrics s) as (Fmin & Fmax & _).
    cbv zeta in Fmin, Fmax.
    pose proof (should_scale_bounds metrics s) as Hb.
    rewrite Fmin, Fmax, Hlo, Hhi in *. split; [reflexivity|].
    split; [reflexivity|]. apply Hb. exact Hcur.
Qed.

Lemma C4_instances_within_bounds_witness :
  min_instances (snd (should_scale Demo.busy Demo.scaler)) = 1 /\
  max_instances (snd (should_scale Demo.busy Demo.scaler)) = 5 /\
  1 <= current_instances (snd (should_scale Demo.busy Demo.scaler)) <= 5.
Proof.
  apply (C4_instances_within_bounds 1 5 default_target_cpu
           default_scale_up_threshold default_scale_down_threshold).
  - lia.
  - apply reach_scale. apply reach_init. reflexivity.
Defined.

(** C7: [AutoScaler(min_instances=1, max_instances=5)] starts with one
    instance; five calls with cpu_usage 0.9, request_rate 150 and
    avg_latency_ms 1200 return 1, 1, 1, 1, 0 and leave 2, 3, 4, 5, 5
    instances. *)
Theorem C7_five_busy_calls :
  __init__ 1 5 default_target_cpu default_scale_up_threshold
    default_scale_down_threshold = inr Demo.scaler /\
  current_instances Demo.scaler = 1 /\
  trace (replicate 5 Demo.busy) Demo.scaler
    = [(inr 1, 2); (inr 1, 3); (inr 1, 4); (inr 1, 5); (inr 0, 5)].
Proof. split; [reflexivity|]. split; [reflexivity|]. vm_compute. reflexivity. Qed.

Lemma get_with_defaults metrics key :
  key ∈ ["cpu_usage"; "request_rate"; "avg_latency_ms"]%string ->
  with_defaults metrics !! key = Some (get metrics key 0) /\
  get (with_defaults metrics) key 0 = get metrics key 0.
Proof.
  intros Hk. unfold with_defaults.
  assert (Hl : <["cpu_usage":=get metrics "cpu_usage" 0]>
            (<["request_rate":=get metrics "request_rate" 0]>
               (<["avg_latency_ms":=get metrics "avg_latency_ms" 0]>
                  metrics)) !! key = Some (get metrics key 0)).
  { repeat (apply elem_of_cons in Hk as [-> | Hk]);
      [| | | by apply elem_of_nil in Hk];
      repeat (first [rewrite lookup_insert_eq
                    | rewrite lookup_insert_ne by discriminate]);
      reflexivity. }
  split; [exact Hl|]. unfold get at 1. rewrite Hl. reflexivity.
Qed.

(** The decision on an empty mapping when no scale-up rule can fire. *)
Lemma should_scale_empty s :
  min_instances s < current_instances s ->
  (0 < scale_down_threshold s)%Q ->
  (0 <= scale_up_threshold s)%Q ->
  should_scale ∅ s
    = (inr (-1), set_current_instances (current_instances s - 1) s).
Proof.
  intros Hcur Hdown Hup. unfold should_scale. step_m.
  change (get ∅ "cpu_usage" 0) with 0%Q.
  change (get ∅ "request_rate" 0) with 0%Q.
  change (get ∅ "avg_latency_ms" 0) with 0%Q.
  assert (Eup : Qgtb 0 (scale_up_threshold s) = false).
  { unfold Qgtb. apply negb_false_iff, Qle_bool_iff, Hup. }
  assert (Edown : Qltb 0 (scale_down_threshold s) = true).
  { unfold Qltb. apply negb_true_iff. apply not_true_is_false.
    intros Hle%Qle_bool_iff. exact (Qlt_not_le _ _ Hdown Hle). }
  assert (Egt : (current_instances s >? min_instances s) = true).
  { rewrite Z.gtb_ltb. apply Z.ltb_lt, Hcur. }
  rewrite Eup.
  change (Qgtb 0 1000) with false. change (Qgtb 0 100) with false.
  change (Qltb 0 100) with true. change (Qltb 0 10) with true.
  cbn [orb andb]. rewrite Edown. cbn [andb]. rewrite Egt.
  do 2 f_equal. lia.
Qed.

(** C9, as stated, fails: a scaler built with a negative
    [scale_up_threshold] is above its minimum after one call, has a
    positive [scale_down_threshold], and on an empty mapping returns 1
    and goes from 2 to 3 instances. *)
Lemma C9_counterexample :
  reachable 1 10 default_target_cpu (-0.5)%Q default_scale_down_threshold
    Demo.eager_scaler /\
  min_instances Demo.eager_scaler < current_instances Demo.eager_scaler /\
  (0 < scale_down_threshold Demo.eager_scaler)%Q /\
  fst (should_scale ∅ Demo.eager_scaler) = inr 1 /\
  fst (should_scale ∅ Demo.eager_scaler) <> inr (-1) /\
  current_instances (snd (should_scale ∅ Demo.eager_scaler)) = 3.
Proof.
  split.
  { pose (s0 := {| min_instances := 1; max_instances := 10;
                   target_cpu := default_target_cpu;
                   scale_up_threshold := (-0.5)%Q;
                   scale_down_threshold := default_scale_down_threshold;
                   current_instances := 1 |}).
    change Demo.eager_scaler with (snd (should_scale ∅ s0)).
    apply reach_scale, reach_init. reflexivity. }
  split; [reflexivity|]. split; [reflexivity|].
  split; [reflexivity|]. split; [discriminate|]. reflexivity.
Qed.

(** C9, amended: [should_scale] reads an absent key as 0, that is, it
    returns the same outcome and state as on the mapping where each of
    the three keys that is absent is bound to 0; and on the empty
    mapping, when [current_instances > min_instances],
    [scale_down_threshold > 0] and [scale_up_threshold >= 0], it returns
    -1 and lowers [current_instances] by one, changing nothing else. *)
Theorem C9_absent_metrics_read_as_zero metrics s :
  (forall key, key ∈ ["cpu_usage"; "request_rate"; "avg_latency_ms"]%string ->
     metrics !! key = None -> with_defaults metrics !! key = Some 0%Q) /\
  should_scale (with_defaults metrics) s = should_scale metrics s /\
  (min_instances s < current_instances s ->
   (0 < scale_down_threshold s)%Q ->
   (0 <= scale_up_threshold s)%Q ->
   should_scale ∅ s
     = (inr (-1), set_current_instances (current_instances s - 1) s)).
Proof.
  split; [|split].
  - intros key Hk Hnone.
    destruct (get_with_defaults metrics key Hk) as [-> _].
    unfold get. rewrite Hnone. reflexivity.
  - unfold should_scale.
    destruct (get_with_defaults metrics "cpu_usage") as [_ ->];
      [set_solver|].
    destruct (get_with_defaults metrics "request_rate") as [_ ->];
      [set_solver|].
    destruct (get_with_defaults metrics "avg_latency_ms") as [_ ->];
      [set_solver|].
    reflexivity.
  - apply should_scale_empty.
Qed.

Lemma C9_absent_metrics_read_as_zero_witness :
  should_scale ∅ (set_current_instances 3 Demo.scaler)
    = (inr (-1), set_current_instances (3 - 1)
                   (set_current_instances 3 Demo.scaler)).
Proof.
  apply (C9_absent_metrics_read_as_zero ∅
           (set_current_instances 3 Demo.scaler)).
  - simpl. lia.
  - reflexivity.
  - discriminate.
Defined.
End AutoScalerFacts.

(** ** Dictionaries as association lists *)

Section DictFacts.
Context {V : Type}.
Implicit Types (d : list (string * V)) (k : string) (v : V).

Lemma dict_contains_keys d k : dict_contains d k = true <-> k ∈ keys d.
Proof.
  induction d as [|[k' v'] d IH]; simpl.
  - split; [discriminate|]. intros Hin. by apply elem_of_nil in Hin.
  - destruct (String.eqb_spec k' k) as [->|Hne].
    + split; [|reflexivity]. intros _. apply elem_of_cons. by left.
    + rewrite IH. split.
      * intros Hin. apply elem_of_cons. by right.
      * intros [Heq|Hin]%elem_of_cons; [congruence|exact Hin].
Qed.

Lemma dict_contains_absent d k : dict_contains d k = false <-> k ∉ keys d.
Proof.
  rewrite <- dict_contains_keys. destruct (dict_contains d k); split;
    congruence.
Qed.

Lemma dict_getitem_contains d k :
  dict_contains d k = true -> exists v, dict_getitem d k = inr v.
Proof.
  induction d as [|[k' v'] d IH]; simpl; [discriminate|].
  destruct (String.eqb k' k); [eauto|exact IH].
Qed.

Lemma dict_setitem_absent d k v :
  dict_contains d k = false -> dict_setitem d k v = d ++ [(k, v)].
Proof.
  induction d as [|[k' v'] d IH]; simpl; [reflexivity|].
  destruct (String.eqb k' k); [discriminate|].
  intros Habs. by rewrite IH.
Qed.

Lemma dict_contains_tail d k :
  dict_contains d k = false -> dict_contains (tail d) k = false.
Proof.
  destruct d as [|[k' v'] d]; simpl; [reflexivity|].
  destruct (String.eqb k' k); [discriminate|auto].
Qed.

Lemma dict_contains_last d k v : dict_contains (d ++ [(k, v)]) k = true.
Proof.
  apply dict_contains_keys. unfold keys. rewrite map_app.
  apply elem_of_app. right. simpl. apply list_elem_of_singleton.
  reflexivity.
Qed.

(** Deleting the oldest key of a non-empty dict drops its first
    binding. *)
Lemma evict_oldest d :
  d <> [] ->
  exists k, next_iter d = inr k /\ dict_delitem d k = inr (tail d).
Proof.
  destruct d as [|[k v] d]; [congruence|]. intros _. exists k. simpl.
  by rewrite String.eqb_refl.
Qed.
End DictFacts.

(** ** Lists *)

Section LastN.
Context {A : Type}.
Import CachingLayer.

Lemma last_n_all (n : Z) (l : list A) : len l <= n -> last_n n l = l.
Proof.
  unfold last_n, len. intros Hn.
  replace (length l - Z.to_nat n)%nat with 0%nat by lia. reflexivity.
Qed.

Lemma last_n_cons (n : Z) (x : A) (l : list A) :
  n <= len l -> last_n n (x :: l) = last_n n l.
Proof.
  unfold last_n, len. intros Hn. cbn [length].
  replace (S (length l) - Z.to_nat n)%nat
    with (S (length l - Z.to_nat n)) by lia.
  reflexivity.
Qed.

Lemma last_n_length (n : Z) (l : list A) :
  0 <= n -> len (last_n n l) = Z.min n (len l).
Proof.
  unfold last_n, len. intros Hn. rewrite length_drop. lia.
Qed.
End LastN.

(** ** CachingLayer *)

Section CachingLayerFacts.
Context `{Runtime}.
Import CachingLayer.

(** On a hit [predict] returns the stored entry and counts the hit. *)
Lemma predict_hit f s :
  dict_contains (cache s) (_hash_features f) = true ->
  predict f s = (dict_getitem (cache s) (_hash_features f), incr_hits s).
Proof.
  intros Hc. unfold predict. step_m. rewrite Hc. reflexivity.
Qed.

(** What [predict] leaves alone, hit or miss, returning or raising: the
    capacity and the behaviour of the model; and it counts the call
    once. *)
Lemma predict_frame f s :
  cache_size (snd (predict f s)) = cache_size s /\
  Model.predict (model (snd (predict f s))) = Model.predict (model s) /\
  Model.predict_proba (model (snd (predict f s)))
    = Model.predict_proba (model s) /\
  hits s <= hits (snd (predict f s)) /\
  misses s <= misses (snd (predict f s)) /\
  hits (snd (predict f s)) + misses (snd (predict f s))
    = hits s + misses s + 1.
Proof.
  unfold predict, model_predict, model_predict_proba. step_m.
  repeat case_match; simplify_eq/=; repeat split; lia.
Qed.

(** A miss either leaves the cache as it was (the call raised) or drops
    the oldest entry of a full cache and puts the new one last. *)
Lemma predict_miss f s :
  0 < cache_size s ->
  dict_contains (cache s) (_hash_features f) = false ->
  let s' := snd (predict f s) in
  (cache s' = cache s /\ exists e, fst (predict f s) = inl e) \/
  (exists r, fst (predict f s) = inr r /\
     cache s' = (if len (cache s) >=? cache_size s
                 then tail (cache s) else cache s)
                ++ [(_hash_features f, r)]).
Proof.
  intros Hsize Hc. unfold predict, model_predict, model_predict_proba.
  step_m. rewrite Hc.
  cbn [model set_model incr_misses cache cache_size Model.record
       Model.predict Model.predict_proba].
  destruct (Model.predict (model s) [f]) as [e|ps]; [left; simpl; eauto|].
  destruct (index0 ps) as [e|p]; [left; simpl; eauto|].
  destruct (Model.predict_proba (model s) [f]) as [e|qs];
    [left; simpl; eauto|].
  destruct (index0 qs) as [e|q]; [left; simpl; eauto|].
  right. eexists. 
  destruct (len (cache s) >=? cache_size s) eqn:Hfull.
  - destruct (evict_oldest (cache s)) as (k & -> & ->).
    { intros Hnil. rewrite Hnil in Hfull. unfold len in Hfull. simpl in Hfull.
      zify_bool. lia. }
    simpl. split; [reflexivity|].
    apply dict_setitem_absent, dict_contains_tail, Hc.
  - simpl. split; [reflexivity|]. apply dict_setitem_absent, Hc.
Qed.

(** The two ways a call can end, as far as the cache is concerned. *)
Lemma predict_cache f s :
  0 < cache_size s ->
  let s' := snd (predict f s) in
  (cache s' = cache s /\ stored f s = false) \/
  (exists r, dict_contains (cache s) (_hash_features f) = false /\
     stored f s = true /\
     cache s' = (if len (cache s) >=? cache_size s
                 then tail (cache s) else cache s)
                ++ [(_hash_features f, r)]).
Proof.
  intros Hsize s'. subst s'. unfold stored.
  destruct (dict_contains (cache s) (_hash_features f)) eqn:Hc.
  - left. rewrite predict_hit by exact Hc. split; reflexivity.
  - destruct (predict_miss f s Hsize Hc) as [[Hsame _] | (r & _ & Hnew)].
    + left. rewrite Hsame, Hc. split; reflexivity.
    + right. exists r. rewrite Hnew, dict_contains_last.
      repeat split; reflexivity.
Qed.

(** One call keeps the cache within its capacity and its keys
    distinct. *)
Lemma predict_invariant f s :
  0 < cache_size s ->
  len (cache s) <= cache_size s /\ NoDup (keys (cache s)) ->
  len (cache (snd (predict f s))) <= cache_size s /\
  NoDup (keys (cache (snd (predict f s)))).
Proof.
  intros Hsize [Hlen Hnd].
  destruct (predict_cache f s Hsize) as [[-> _] | (r & Hc & _ & ->)];
    [auto|].
  apply dict_contains_absent in Hc.
  destruct (len (cache s) >=? cache_size s) eqn:Hfull; zify_bool.
  - destruct (cache s) as [|[k0 v0] d] eqn:Hd.
    { unfold len in Hfull. simpl in Hfull. lia. }
    cbn [tail]. unfold len, keys in *. rewrite map_app, length_app.
    cbn [length map fst] in *. split; [lia|].
    apply NoDup_cons in Hnd as [_ Hnd].
    apply NoDup_app. split; [exact Hnd|]. split.
    + intros k Hk ->%list_elem_of_singleton. apply Hc.
      apply elem_of_cons. by right.
    + apply NoDup_singleton.
  - unfold len, keys in *. rewrite map_app, length_app.
    cbn [length map fst]. split; [lia|].
    apply NoDup_app. split; [exact Hnd|]. split.
    + intros k Hk ->%list_elem_of_singleton. exact (Hc Hk).
    + apply NoDup_singleton.
Qed.


Lemma run_cons f fs s : run (f :: fs) s = run fs (snd (predict f s)).
Proof. reflexivity. Qed.

(** The keys in the cache after a sequence of calls are the last
    [cache_size] of the keys it held before followed by the keys the
    calls stored. *)
Lemma run_keys fs : forall s,
  0 < cache_size s ->
  len (cache s) <= cache_size s ->
  NoDup (keys (cache s)) ->
  keys (cache (run fs s))
    = last_n (cache_size s) (keys (cache s) ++ insertions fs s).
Proof.
  induction fs as [|f fs IH]; intros s Hsize Hlen Hnd.
  - simpl. rewrite app_nil_r. symmetry. apply last_n_all.
    unfold keys, len in *. rewrite length_map. exact Hlen.
  - rewrite run_cons. cbn [insertions].
    destruct (predict_frame f s) as (Hcs & _).
    destruct (predict_invariant f s Hsize (conj Hlen Hnd)) as [Hlen' Hnd'].
    rewrite IH by (rewrite ?Hcs; auto). rewrite Hcs. clear IH.
    destruct (predict_cache f s Hsize) as [[-> ->] | (r & Hc & -> & ->)];
      [reflexivity|].
    unfold keys. rewrite map_app. cbn [map fst].
    destruct (len (cache s) >=? cache_size s) eqn:Hfull; zify_bool;
      [|by rewrite <- app_assoc].
    destruct (cache s) as [|[k0 v0] d] eqn:Hd.
    { unfold len in Hfull. simpl in Hfull. lia. }
    cbn [tail map fst]. rewrite <- !app_assoc. cbn [app].
    symmetry. apply last_n_cons.
    unfold len in *. rewrite length_app, length_map.
    cbn [length] in *. lia.
Qed.

Lemma remove_dups_shorter (l : list string) :
  (length (remove_dups l) <= length l)%nat.
Proof.
  induction l as [|x l IH]; simpl; [lia|].
  destruct (decide_rel elem_of x l); simpl; lia.
Qed.

(** A miss on a request that the model answers stores the entry. *)
Lemma predict_store f s :
  0 < cache_size s ->
  dict_contains (cache s) (_hash_features f) = false ->
  answers (model s) f ->
  exists r,
    cache (snd (predict f s))
      = (if len (cache s) >=? cache_size s
         then tail (cache s) else cache s) ++ [(_hash_features f, r)].
Proof.
  intros Hsize Hc [(p & ps & Hp) (q & qs & Hq)].
  destruct (predict_miss f s Hsize Hc) as [[_ [e He]] | (r & _ & Hnew)];
    [|eauto].
  exfalso. revert He.
  unfold predict, model_predict, model_predict_proba. step_m. rewrite Hc.
  cbn [model set_model incr_misses cache cache_size Model.record
       Model.predict Model.predict_proba].
  rewrite Hp, Hq. cbn [index0].
  destruct (len (cache s) >=? cache_size s) eqn:Hfull; [|discriminate].
  destruct (evict_oldest (cache s)) as (k & -> & ->); [|discriminate].
  intros Hnil. rewrite Hnil in Hfull. unfold len in Hfull.
  simpl in Hfull. zify_bool. lia.
Qed.

(** A miss is counted as a miss, whether the call returns or raises. *)
Lemma predict_miss_counts f s :
  dict_contains (cache s) (_hash_features f) = false ->
  hits (snd (predict f s)) = hits s /\
  misses (snd (predict f s)) = misses s + 1.
Proof.
  intros Hc. unfold predict, model_predict, model_predict_proba. step_m.
  rewrite Hc. repeat case_match; simplify_eq/=; split; reflexivity.
Qed.

Lemma answers_after f g s :
  answers (model s) g -> answers (model (snd (predict f s))) g.
Proof.
  destruct (predict_frame f s) as (_ & Hp & Hq & _).
  unfold answers. rewrite Hp, Hq. auto.
Qed.

(** Requests with pairwise different fingerprints, none of them cached,
    all answered by the model: each call stores its key. *)
Lemma insertions_fresh requests : forall s,
  0 < cache_size s ->
  NoDup (map _hash_features requests) ->
  (forall f, f ∈ requests ->
     answers (model s) f /\ _hash_features f ∉ keys (cache s)) ->
  insertions requests s = map _hash_features requests.
Proof.
  induction requests as [|f fs IH]; intros s Hsize Hnd Hreq; [reflexivity|].
  cbn [insertions map]. apply NoDup_cons in Hnd as [Hf Hnd].
  destruct (Hreq f) as [Hans Habs]; [by left|].
  apply dict_contains_absent in Habs.
  destruct (predict_store f s Hsize Habs Hans) as [r Hnew].
  unfold stored. rewrite Habs, Hnew, dict_contains_last. cbn [negb andb app].
  f_equal. apply IH.
  - by destruct (predict_frame f s) as (-> & _).
  - exact Hnd.
  - intros g Hg. destruct (Hreq g) as [Hans' Habs']; [by right|].
    split; [by apply answers_after|].
    rewrite Hnew. unfold keys. rewrite map_app. cbn [map fst].
    intros [Hin | Heq%list_elem_of_singleton]%elem_of_app.
    + apply Habs'. destruct (len (cache s) >=? cache_size s); [|exact Hin].
      destruct (cache s) as [|x d]; [exact Hin|]. cbn [tail] in Hin.
      apply elem_of_cons. by right.
    + apply Hf. rewrite <- Heq.
      by apply list_elem_of_In, in_map, list_elem_of_In.
Qed.

(** The invariant of the cache is kept by any sequence of calls. *)
Lemma run_invariant requests : forall s,
  0 < cache_size s ->
  len (cache s) <= cache_size s /\ NoDup (keys (cache s)) ->
  cache_size (run requests s) = cache_size s /\
  len (cache (run requests s)) <= cache_size s /\
  NoDup (keys (cache (run requests s))).
Proof.
  induction requests as [|f fs IH]; intros s Hsize Hinv.
  - simpl. tauto.
  - rewrite run_cons.
    destruct (predict_frame f s) as (Hcs & _).
    destruct (IH (snd (predict f s))) as (Hcs' & Hinv');
      rewrite ?Hcs in *; [exact Hsize| |auto].
    by apply predict_invariant.
Qed.

(** C2: in every state reached from a caching layer built with a
    positive [cache_size], by any sequence of [predict] calls, the cache
    holds at most [cache_size] entries and no two of them have the same
    fingerprint. *)
Theorem C2_cache_bounded_and_keys_unique m size s :
  0 < size ->
  reachable m size s ->
  cache_size s = size /\
  len (cache s) <= size /\
  NoDup (keys (cache s)).
Proof.
  intros Hsize Hr. induction Hr as [s Hinit | s f Hr IH].
  - unfold __init__ in Hinit. injection Hinit as <-. simpl.
    split; [reflexivity|]. split; [unfold len; simpl; lia|].
    apply NoDup_nil_2.
  - destruct IH as (Hcs & Hlen & Hnd).
    destruct (predict_frame f s) as (Hcs' & _).
    split; [congruence|]. rewrite <- Hcs.
    apply predict_invariant; rewrite Hcs; auto.
Qed.

Lemma run_reachable m size requests : forall s,
  reachable m size s -> reachable m size (run requests s).
Proof.
  induction requests as [|f fs IH]; intros s Hs; [exact Hs|].
  rewrite run_cons. apply IH. by apply reach_predict.
Qed.

(** C1: in a caching layer built with a positive [cache_size], once the
    calls made so far have stored more than [cache_size] distinct keys,
    the cache holds exactly [cache_size] entries, and their keys are the
    last [cache_size] keys stored, in the order they were stored (a hit
    does not move a key).  In particular, after more than [cache_size]
    requests with pairwise different fingerprints, all answered by the
    model, the keys are the fingerprints of the last [cache_size]
    requests.  For [cache_size = 2] and three requests a, b,
    c with different fingerprints that the model answers: after
    [predict] on a, b and c, the key of a is absent and [predict] of a
    counts a miss; the keys of b and of c are present and [predict] of
    either counts a hit. *)
Theorem C1_fifo_keeps_last_stored_keys :
  (forall (m : Model.t) (size : Z) (s0 : t) (requests : list Features),
      0 < size ->
      __init__ m size = inr s0 ->
      size < len (remove_dups (insertions requests s0)) ->
      keys (cache (run requests s0)) = last_n size (insertions requests s0)
      /\ len (cache (run requests s0)) = size
      /\ NoDup (keys (cache (run requests s0)))) /\
  (forall (m : Model.t) (size : Z) (s0 : t) (requests : list Features),
      0 < size ->
      __init__ m size = inr s0 ->
      NoDup (map _hash_features requests) ->
      (forall f, f ∈ requests -> answers m f) ->
      size < len requests ->
      keys (cache (run requests s0))
      = last_n size (map _hash_features requests)
      /\ len (cache (run requests s0)) = size) /\
  (forall (m : Model.t) (s0 : t) (a b c : Features),
      __init__ m 2 = inr s0 ->
      answers m a -> answers m b -> answers m c ->
      _hash_features a <> _hash_features b ->
      _hash_features a <> _hash_features c ->
      _hash_features b <> _hash_features c ->
      let s := run [a; b; c] s0 in
      keys (cache s) = [_hash_features b; _hash_features c] /\
      dict_contains (cache s) (_hash_features a) = false /\
      dict_contains (cache s) (_hash_features b) = true /\
      dict_contains (cache s) (_hash_features c) = true /\
      misses (snd (predict a s)) = misses s + 1 /\
      hits (snd (predict a s)) = hits s /\
      hits (snd (predict b s)) = hits s + 1 /\
      misses (snd (predict b s)) = misses s /\
      hits (snd (predict c s)) = hits s + 1 /\
      misses (snd (predict c s)) = misses s).
Proof.
  assert (Hfresh : forall m size s0 requests,
             0 < size -> __init__ m size = inr s0 ->
             keys (cache (run requests s0))
             = last_n size (insertions requests s0)).
  { intros m size s0 requests Hsize Hinit.
    unfold __init__ in Hinit. injection Hinit as Hs0.
    assert (Hsz0 : cache_size s0 = size) by (by rewrite <- Hs0).
    assert (Hcache0 : cache s0 = []) by (by rewrite <- Hs0).
    rewrite run_keys; rewrite ?Hsz0, ?Hcache0;
      [reflexivity|exact Hsize| |apply NoDup_nil_2].
    unfold len. simpl. lia. }
  split; [|split].
  - intros m size s0 requests Hsize Hinit Hmany.
    pose proof (Hfresh m size s0 requests Hsize Hinit) as Hkeys.
    assert (Hnd : NoDup (keys (cache (run requests s0)))).
    { unfold __init__ in Hinit. injection Hinit as Hs0.
      apply run_invariant; rewrite <- Hs0; simpl;
        [exact Hsize|]. split; [unfold len; simpl; lia|apply NoDup_nil_2]. }
    split; [exact Hkeys|]. split; [|exact Hnd].
    transitivity (len (keys (cache (run requests s0)))).
    { unfold len, keys. by rewrite length_map. }
    rewrite Hkeys, last_n_length by lia.
    pose proof (remove_dups_shorter (insertions requests s0)).
    unfold len in *. lia.
  - intros m size s0 requests Hsize Hinit Hnd Hans Hmany.
    pose proof (Hfresh m size s0 requests Hsize Hinit) as Hkeys.
    unfold __init__ in Hinit. injection Hinit as Hs0.
    rewrite insertions_fresh in Hkeys.
    + split; [exact Hkeys|].
      transitivity (len (keys (cache (run requests s0)))).
      { unfold len, keys. by rewrite length_map. }
      rewrite Hkeys, last_n_length by lia.
      unfold len in *. rewrite length_map. lia.
    + by rewrite <- Hs0.
    + exact Hnd.
    + intros f Hf. rewrite <- Hs0. cbn [model cache keys map].
      split; [by apply Hans|]. apply not_elem_of_nil.
  - intros m s0 a b c Hinit Ha Hb Hc Hab Hac Hbc s.
    unfold __init__ in Hinit. injection Hinit as Hs0.
    assert (Hsz0 : cache_size s0 = 2) by (by rewrite <- Hs0).
    assert (Hcache0 : cache s0 = []) by (by rewrite <- Hs0).
    assert (Hm0 : model s0 = m) by (by rewrite <- Hs0).
    rewrite <- Hm0 in Ha, Hb, Hc. clear Hs0 Hm0.
    set (s1 := snd (predict a s0)).
    set (s2 := snd (predict b s1)).
    assert (Hsz1 : cache_size s1 = 2)
      by (unfold s1; destruct (predict_frame a s0) as (-> & _); exact Hsz0).
    assert (Hsz2 : cache_size s2 = 2)
      by (unfold s2; destruct (predict_frame b s1) as (-> & _); exact Hsz1).
    destruct (predict_store a s0) as (ra & Hc1);
      [lia|by rewrite Hcache0|exact Ha|].
    fold s1 in Hc1. rewrite Hsz0, Hcache0 in Hc1. simpl in Hc1.
    destruct (predict_store b s1) as (rb & Hc2).
    { lia. }
    { rewrite Hc1. simpl. by apply String.eqb_neq in Hab as ->. }
    { by apply answers_after. }
    fold s2 in Hc2. rewrite Hsz1, Hc1 in Hc2. simpl in Hc2.
    destruct (predict_store c s2) as (rc & Hc3).
    { lia. }
    { rewrite Hc2. simpl. apply String.eqb_neq in Hac as ->.
      by apply String.eqb_neq in Hbc as ->. }
    { by do 2 apply answers_after. }
    change (snd (predict c s2)) with s in Hc3.
    rewrite Hsz2, Hc2 in Hc3. simpl in Hc3.
    assert (Hna : dict_contains (cache s) (_hash_features a) = false).
    { rewrite Hc3. simpl.
      assert (_hash_features b <> _hash_features a) as ->%String.eqb_neq
        by congruence.
      assert (_hash_features c <> _hash_features a) as ->%String.eqb_neq
        by congruence.
      reflexivity. }
    assert (Hyb : dict_contains (cache s) (_hash_features b) = true).
    { rewrite Hc3. simpl. by rewrite String.eqb_refl. }
    assert (Hyc : dict_contains (cache s) (_hash_features c) = true).
    { rewrite Hc3. simpl. rewrite String.eqb_refl.
      by destruct (String.eqb _ _). }
    split; [by rewrite Hc3|].
    do 3 (split; [assumption|]).
    destruct (predict_miss_counts a s Hna) as [-> ->].
    rewrite !predict_hit by assumption. simpl.
    repeat split; reflexivity.
Qed.

(** C10: when the fingerprint of the request is in the cache, [predict]
    returns the entry stored under it, adds one to [hits], and changes
    nothing else: not the cache (contents and order), not [misses], not
    [cache_size], and not the model, which receives no call. *)
Theorem C10_hit_changes_only_hits f s :
  dict_contains (cache s) (_hash_features f) = true ->
  exists r,
    dict_getitem (cache s) (_hash_features f) = inr r /\
    fst (predict f s) = inr r /\
    hits (snd (predict f s)) = hits s + 1 /\
    misses (snd (predict f s)) = misses s /\
    cache (snd (predict f s)) = cache s /\
    cache_size (snd (predict f s)) = cache_size s /\
    model (snd (predict f s)) = model s /\
    Model.received (model (snd (predict f s))) = Model.received (model s).
Proof.
  intros Hc. destruct (dict_getitem_contains _ _ Hc) as [r Hr].
  exists r. rewrite predict_hit by exact Hc. simpl.
  repeat split; solve [exact Hr | reflexivity].
Qed.

(** [get_cache_stats] returns in every state and changes nothing. *)
Lemma get_cache_stats_returns s :
  get_cache_stats s
  = (inr {| stat_cache_size := len (cache s); stat_hits := hits s;
            stat_misses := misses s;
            stat_hit_rate :=
              if hits s + misses s >? 0
              then Float (inject_Z (hits s) / inject_Z (hits s + misses s))
              else Int 0 |}, s).
Proof.
  unfold get_cache_stats, truediv. step_m.
  destruct (hits s + misses s >? 0) eqn:Hpos; [|reflexivity].
  zify_bool. apply Z.lt_neq, not_eq_sym in Hpos.
  by apply Z.eqb_neq in Hpos as ->.
Qed.

Lemma run_counts requests : forall s,
  0 <= hits s -> 0 <= misses s ->
  0 <= hits (run requests s) /\ 0 <= misses (run requests s) /\
  hits (run requests s) + misses (run requests s)
    = hits s + misses s + len requests.
Proof.
  induction requests as [|f fs IH]; intros s Hh Hm.
  - unfold len. simpl. lia.
  - rewrite run_cons.
    destruct (predict_frame f s) as (_ & _ & _ & Hh' & Hm' & Hsum).
    destruct (IH (snd (predict f s))) as (? & ? & Htot); [lia|lia|].
    unfold len in *. cbn [length]. lia.
Qed.

(** C8: after any sequence of [predict] calls on a fresh caching layer,
    [hits + misses] is the number of calls, [get_cache_stats] returns
    (no exception, no state change), and its [hit_rate] is the quotient
    [hits / (hits + misses)] when there was at least one call and the
    int 0 when there was none. *)
Theorem C8_hit_rate_defined m size s0 requests :
  __init__ m size = inr s0 ->
  let s := run requests s0 in
  hits s + misses s = len requests /\
  exists st,
    get_cache_stats s = (inr st, s) /\
    stat_hits st = hits s /\ stat_misses st = misses s /\
    (requests <> [] ->
     stat_hit_rate st
       = Float (inject_Z (hits s) / inject_Z (hits s + misses s))) /\
    (requests = [] -> stat_hit_rate st = Int 0).
Proof.
  intros Hinit s. unfold __init__ in Hinit. injection Hinit as <-.
  destruct (run_counts requests
              {| model := m; cache := []; cache_size := size;
                 hits := 0; misses := 0 |}) as (Hh & Hm & Hsum);
    [simpl; lia|simpl; lia|].
  fold s in Hh, Hm, Hsum. simpl in Hsum.
  split; [exact Hsum|].
  eexists. split; [apply get_cache_stats_returns|].
  cbn [stat_hits stat_misses stat_hit_rate].
  split; [reflexivity|]. split; [reflexivity|]. split.
  - intros Hne. destruct requests as [|f fs]; [congruence|].
    unfold len in Hsum. cbn [length] in Hsum.
    assert ((hits s + misses s >? 0) = true) as ->; [|reflexivity].
    rewrite Z.gtb_ltb. apply Z.ltb_lt. lia.
  - intros ->. reflexivity.
Qed.
End CachingLayerFacts.

(** *** The caching layer on concrete requests *)

Section CachingLayerExamples.
Import CachingLayer.

Lemma demo_answers x : answers Demo.model (Demo.req x).
Proof. split; do 2 eexists; reflexivity. Qed.

Lemma C1_fifo_keeps_last_stored_keys_witness :
  (keys (cache (run [Demo.a; Demo.b; Demo.a; Demo.c] Demo.cache2))
   = last_n 2 (insertions [Demo.a; Demo.b; Demo.a; Demo.c] Demo.cache2)
   /\ len (cache (run [Demo.a; Demo.b; Demo.a; Demo.c] Demo.cache2)) = 2
   /\ NoDup (keys (cache (run [Demo.a; Demo.b; Demo.a; Demo.c]
                            Demo.cache2)))) /\
  dict_contains (cache (run [Demo.a; Demo.b; Demo.c] Demo.cache2))
    (_hash_features Demo.a) = false.
Proof.
  split.
  - apply (proj1 (@C1_fifo_keeps_last_stored_keys Demo.runtime)
             Demo.model 2 Demo.cache2).
    + lia.
    + reflexivity.
    + vm_compute. reflexivity.
  - apply (proj2 (proj2 (@C1_fifo_keeps_last_stored_keys Demo.runtime))
             Demo.model Demo.cache2 Demo.a Demo.b Demo.c);
      solve [reflexivity | apply demo_answers
            | vm_compute; discriminate].
Defined.

Lemma C2_cache_bounded_and_keys_unique_witness :
  cache_size (run [Demo.a; Demo.b; Demo.c] Demo.cache2) = 2 /\
  len (cache (run [Demo.a; Demo.b; Demo.c] Demo.cache2)) <= 2 /\
  NoDup (keys (cache (run [Demo.a; Demo.b; Demo.c] Demo.cache2))).
Proof.
  apply (@C2_cache_bounded_and_keys_unique Demo.runtime Demo.model 2).
  - lia.
  - apply run_reachable, reach_init. reflexivity.
Defined.

Lemma C8_hit_rate_defined_witness :
  hits (run [Demo.a; Demo.b; Demo.a] Demo.cache2)
  + misses (run [Demo.a; Demo.b; Demo.a] Demo.cache2) = 3.
Proof.
  apply (@C8_hit_rate_defined Demo.runtime Demo.model 2 Demo.cache2
           [Demo.a; Demo.b; Demo.a]).
  reflexivity.
Defined.

Lemma C10_hit_changes_only_hits_witness :
  exists r,
    dict_getitem (cache (run [Demo.a] Demo.cache2))
      (_hash_features Demo.a) = inr r /\
    fst (predict Demo.a (run [Demo.a] Demo.cache2)) = inr r /\
    hits (snd (predict Demo.a (run [Demo.a] Demo.cache2)))
      = hits (run [Demo.a] Demo.cache2) + 1 /\
    misses (snd (predict Demo.a (run [Demo.a] Demo.cache2)))
      = misses (run [Demo.a] Demo.cache2) /\
    cache (snd (predict Demo.a (run [Demo.a] Demo.cache2)))
      = cache (run [Demo.a] Demo.cache2) /\
    cache_size (snd (predict Demo.a (run [Demo.a] Demo.cache2)))
      = cache_size (run [Demo.a] Demo.cache2) /\
    model (snd (predict Demo.a (run [Demo.a] Demo.cache2)))
      = model (run [Demo.a] Demo.cache2) /\
    Model.received (model (snd (predict Demo.a (run [Demo.a] Demo.cache2))))
      = Model.received (model (run [Demo.a] Demo.cache2)).
Proof.
  apply (@C10_hit_changes_only_hits Demo.runtime Demo.a
           (run [Demo.a] Demo.cache2)).
  reflexivity.
Defined.
End CachingLayerExamples.

(** ** Fingerprints *)

Section StringOrder.
(** [String.ltb] is a strict total order. *)
Lemma string_ltb_flip (a b : string) :
  a <> b -> String.ltb b a = negb (String.ltb a b).
Proof.
  intros Hne. unfold String.ltb. rewrite (String.compare_antisym a b).
  destruct (String.compare b a) eqn:Hcmp; simpl; try reflexivity.
  apply String.compare_eq_iff in Hcmp. congruence.
Qed.

Lemma string_ltb_leb (a b : string) :
  String.ltb a b = true -> String.leb a b = true /\ a <> b.
Proof.
  unfold String.ltb, String.leb.
  destruct (String.compare a b) eqn:Hcmp; try discriminate.
  intros _. split; [reflexivity|]. intros ->.
  pose proof (String.compare_antisym b b) as Hanti.
  rewrite Hcmp in Hanti. discriminate.
Qed.

Lemma string_ltb_trans (a b c : string) :
  String.ltb a b = true -> String.ltb b c = true -> String.ltb a c = true.
Proof.
  intros [Hab Hne]%string_ltb_leb [Hbc Hne']%string_ltb_leb.
  assert (Hac : String.le a c).
  { transitivity b; unfold String.le; [by rewrite Hab|by rewrite Hbc]. }
  assert (Hne'' : a <> c).
  { intros ->. apply Hne. apply (anti_symm String.le); unfold String.le;
      [by rewrite Hab|by rewrite Hbc]. }
  unfold String.le, String.leb in Hac. unfold String.ltb.
  destruct (String.compare a c) eqn:Hcmp; try done.
  apply String.compare_eq_iff in Hcmp. congruence.
Qed.
End StringOrder.

Section Fingerprint.
Context `{Runtime}.
Import CachingLayer.
Implicit Types (x y z : string * Value) (l : list (string * Value)).

(** Tuples with different keys are ordered by their keys; the values
    are not looked at. *)
Lemma tuple_lt_keys x y :
  fst x <> fst y -> tuple_lt x y = String.ltb (fst x) (fst y).
Proof.
  intros Hne. unfold tuple_lt. by apply String.eqb_neq in Hne as ->.
Qed.

Lemma insert_sorted_elem x z l : z ∈ insert_sorted x l <-> z = x \/ z ∈ l.
Proof.
  induction l as [|y l IH]; simpl.
  - rewrite list_elem_of_singleton. split; [by left|].
    intros [Hz|Hz]; [exact Hz|by apply elem_of_nil in Hz].
  - destruct (tuple_lt y x); rewrite !elem_of_cons, ?IH; tauto.
Qed.

Lemma sorted_elem z l : z ∈ sorted l <-> z ∈ l.
Proof.
  induction l as [|x l IH]; simpl; [reflexivity|].
  rewrite insert_sorted_elem, elem_of_cons, IH. reflexivity.
Qed.

(** Two insertions of tuples with different keys commute. *)
Lemma insert_sorted_comm x y l :
  fst x <> fst y ->
  (forall z, z ∈ l -> fst z <> fst x /\ fst z <> fst y) ->
  insert_sorted x (insert_sorted y l) = insert_sorted y (insert_sorted x l).
Proof.
  intros Hxy. induction l as [|z l IH]; intros Hl.
  - simpl. rewrite !tuple_lt_keys by congruence.
    rewrite (string_ltb_flip (fst x) (fst y)) by exact Hxy.
    destruct (String.ltb (fst x) (fst y)); reflexivity.
  - destruct (Hl z) as [Hzx Hzy]; [by left|].
    assert (IH' : insert_sorted x (insert_sorted y l)
                  = insert_sorted y (insert_sorted x l)).
    { apply IH. intros w Hw. apply Hl. by right. }
    pose proof (string_ltb_flip (fst z) (fst x) Hzx) as Fxz.
    pose proof (string_ltb_flip (fst z) (fst y) Hzy) as Fyz.
    pose proof (string_ltb_flip (fst x) (fst y) Hxy) as Fyx.
    cbn [insert_sorted]. rewrite !tuple_lt_keys by congruence.
    destruct (String.ltb (fst z) (fst y)) eqn:Ezy,
             (String.ltb (fst z) (fst x)) eqn:Ezx;
      cbn [insert_sorted negb] in *;
      rewrite !tuple_lt_keys by congruence; rewrite ?Ezy, ?Ezx.
    + by rewrite IH'.
    + by rewrite (string_ltb_trans _ _ _ Fxz Ezy).
    + by rewrite (string_ltb_trans _ _ _ Fyz Ezx).
    + rewrite Fyx. destruct (String.ltb (fst x) (fst y)); reflexivity.
Qed.

(** [sorted] does not depend on the order of the items of a dict. *)
Lemma sorted_permutation l1 l2 :
  Permutation l1 l2 -> NoDup (keys l1) -> sorted l1 = sorted l2.
Proof.
  induction 1 as [|x l1 l2 Hp IH|x y l|l1 l2 l3 Hp1 IH1 Hp2 IH2];
    intros Hnd.
  - reflexivity.
  - simpl. rewrite IH; [reflexivity|]. by apply NoDup_cons in Hnd as [_ ?].
  - simpl. cbn [keys map] in Hnd.
    apply NoDup_cons in Hnd as [Hy Hnd].
    apply NoDup_cons in Hnd as [Hx Hnd].
    apply insert_sorted_comm.
    + intros Heq. apply Hy, elem_of_cons. left. exact Heq.
    + intros z Hz. apply (proj1 (sorted_elem z l)) in Hz.
      assert (Hk : fst z ∈ map fst l)
        by (by apply list_elem_of_In, in_map, list_elem_of_In).
      split; intros Heq.
      * apply Hy, elem_of_cons. right. by rewrite <- Heq.
      * apply Hx. by rewrite <- Heq.
  - rewrite IH1 by exact Hnd. apply IH2.
    unfold keys in *. by rewrite <- Hp1.
Qed.

(** [sorted] returns its argument reordered, and for the items of a dict
    in strictly increasing order of the keys: it is the one list any
    correct sort returns. *)
Lemma insert_sorted_permutation x l : Permutation (insert_sorted x l) (x :: l).
Proof.
  induction l as [|y l IH]; simpl; [reflexivity|].
  destruct (tuple_lt y x); [|reflexivity].
  rewrite IH. apply perm_swap.
Qed.

Lemma sorted_is_permutation l : Permutation (sorted l) l.
Proof.
  induction l as [|x l IH]; simpl; [reflexivity|].
  rewrite insert_sorted_permutation. by apply perm_skip.
Qed.

Lemma insert_sorted_increasing x l :
  (forall z, z ∈ l -> fst z <> fst x) ->
  StronglySorted (fun a b => String.ltb (fst a) (fst b) = true) l ->
  StronglySorted (fun a b => String.ltb (fst a) (fst b) = true)
    (insert_sorted x l).
Proof.
  intros Hl Hs. induction Hs as [|y l Hs IH Hy]; simpl.
  - repeat constructor.
  - assert (Hyx : fst y <> fst x) by (apply Hl; by left).
    rewrite tuple_lt_keys by exact Hyx.
    destruct (String.ltb (fst y) (fst x)) eqn:Eyx.
    + constructor.
      * apply IH. intros z Hz. apply Hl. by right.
      * apply Forall_forall. intros z [-> | Hz]%insert_sorted_elem;
          [exact Eyx|].
        by apply (proj1 (Forall_forall _ _) Hy).
    + rewrite (string_ltb_flip (fst x) (fst y)) in Eyx by congruence.
      apply negb_false_iff in Eyx.
      constructor; [by constructor|].
      constructor; [exact Eyx|].
      apply Forall_forall. intros z Hz.
      apply (string_ltb_trans _ _ _ Eyx).
      by apply (proj1 (Forall_forall _ _) Hy).
Qed.

Lemma sorted_increasing l :
  NoDup (keys l) ->
  StronglySorted (fun a b => String.ltb (fst a) (fst b) = true) (sorted l).
Proof.
  induction l as [|x l IH]; simpl; intros Hnd; [constructor|].
  apply NoDup_cons in Hnd as [Hx Hnd].
  apply insert_sorted_increasing; [|by apply IH].
  intros z Hz Heq. apply (proj1 (sorted_elem z l)) in Hz.
  apply Hx. rewrite <- Heq.
  by apply list_elem_of_In, in_map, list_elem_of_In.
Qed.

(** C6: two feature mappings with the same key-value pairs, whatever the
    order in which the keys were inserted, have the same fingerprint. *)
Theorem C6_fingerprint_ignores_insertion_order (f1 f2 : Features) :
  NoDup (keys f1) ->
  Permutation f1 f2 ->
  _hash_features f1 = _hash_features f2.
Proof.
  intros Hnd Hp. unfold _hash_features.
  by rewrite (sorted_permutation f1 f2 Hp Hnd).
Qed.
End Fingerprint.

Lemma C6_fingerprint_ignores_insertion_order_witness :
  @CachingLayer._hash_features Demo.runtime Demo.xy
  = @CachingLayer._hash_features Demo.runtime Demo.yx.
Proof.
  apply (@C6_fingerprint_ignores_insertion_order Demo.runtime).
  - unfold Demo.xy, keys. simpl. apply NoDup_cons. split.
    + intros Hin%list_elem_of_singleton. discriminate.
    + apply NoDup_singleton.
  - apply perm_swap.
Defined.

(** ** BatchProcessor *)

Section BatchProcessorFacts.
Context `{Runtime}.
Import BatchProcessor.

Lemma slice_to_length {A} (n : Z) (l : list A) :
  0 <= n -> len (slice_to n l) <= n.
Proof.
  intros Hn. unfold slice_to, len.
  destruct (0 <=? n) eqn:Hsign; zify_bool; [|lia].
  rewrite length_take. lia.
Qed.

Lemma slice_split {A} (n : Z) (l : list A) :
  slice_to n l ++ slice_from n l = l.
Proof.
  unfold slice_to, slice_from. destruct (0 <=? n); apply take_drop.
Qed.

(** [_process_batch] on a non-empty queue: the first [batch_size] items
    leave the queue and are handed to the model; the clock reading is
    kept only if both model calls return. *)
Lemma process_batch_calls finished s :
  batch_queue s <> [] ->
  let batch := slice_to (batch_size s) (batch_queue s) in
  let s' := snd (_process_batch finished s) in
  batch_queue s' = slice_from (batch_size s) (batch_queue s) /\
  batch_size s' = batch_size s /\
  max_wait_time s' = max_wait_time s /\
  (new_calls s s' = [Model.Predict batch]
     /\ last_batch_time s' = last_batch_time s
   \/ new_calls s s' = [Model.Predict batch; Model.PredictProba batch]
     /\ (last_batch_time s' = last_batch_time s
         \/ last_batch_time s' = finished)).
Proof.
  intros Hq. unfold _process_batch, model_predict, model_predict_proba,
    new_calls.
  step_m. destruct (batch_queue s) as [|x q] eqn:Eq; [congruence|].
  cbn [model set_model set_batch_queue batch_size Model.record
       Model.predict Model.predict_proba Model.received].
  repeat case_match; simplify_eq/=;
    rewrite <- ?app_assoc, ?drop_app_length; simpl; rewrite ?Eq; tauto.
Qed.

(** The two ways an arrival can end.  Without a flush the request is
    queued.  With a flush the queue is cut at [batch_size]: the head goes
    to [model.predict] and, if that returns, to [model.predict_proba];
    the call raises what the model raises and records the clock only if
    both calls return. *)
Lemma add_request_cases (s : t) (f : Features) (now finished : Q) :
  let q := batch_queue s ++ [f] in
  let batch := slice_to (batch_size s) q in
  let due := (len q >=? batch_size s)
             || Qgeb (now - last_batch_time s) (max_wait_time s) in
  let r := add_request f now finished s in
  batch_size (snd r) = batch_size s /\
  max_wait_time (snd r) = max_wait_time s /\
  Model.predict (model (snd r)) = Model.predict (model s) /\
  Model.predict_proba (model (snd r)) = Model.predict_proba (model s) /\
  (due = false ->
     r = (inr tt, set_batch_queue q s)) /\
  (due = true ->
     batch_queue (snd r) = slice_from (batch_size s) q /\
     match Model.predict (model s) batch with
     | inl e =>
         fst r = inl e /\
         Model.received (model (snd r))
         = Model.received (model s) ++ [Model.Predict batch] /\
         last_batch_time (snd r) = last_batch_time s
     | inr _ =>
         Model.received (model (snd r))
         = Model.received (model s)
           ++ [Model.Predict batch; Model.PredictProba batch] /\
         match Model.predict_proba (model s) batch with
         | inl e => fst r = inl e /\
                    last_batch_time (snd r) = last_batch_time s
         | inr _ => fst r = inr tt /\ last_batch_time (snd r) = finished
         end
     end).
Proof.
  intros q batch due r. subst r due batch.
  unfold add_request, _process_batch, model_predict, model_predict_proba.
  step_m.
  cbn [set_batch_queue batch_queue batch_size last_batch_time
       max_wait_time model].
  fold q.
  assert (Hq : q <> []) by (subst q; by destruct (batch_queue s)).
  destruct ((len q >=? batch_size s)
            || Qgeb (now - last_batch_time s) (max_wait_time s)).
  - destruct q as [|x q'] eqn:Eq; [congruence|]. cbn [andb].
    cbn [set_model model Model.record Model.predict Model.predict_proba
         Model.received set_batch_queue batch_queue batch_size
         set_last_batch_time max_wait_time last_batch_time].
    destruct (Model.predict (model s) (slice_to (batch_size s) (x :: q')))
      as [e|ps]; simpl.
    { repeat split; congruence. }
    destruct (Model.predict_proba (model s)
                (slice_to (batch_size s) (x :: q'))) as [e|qs]; simpl;
      rewrite <- app_assoc; repeat split; congruence.
  - cbn [andb]. simpl. repeat split; congruence.
Qed.

(** C3, as stated, fails: [BatchProcessor(model, batch_size=3,
    max_wait_time=10)] is built when the clock reads 0 and receives its
    first request when the clock reads 100.  That request opens the
    batch, so no time has passed since the first item of the batch
    arrived, and the queue holds one item of three: the rule of the
    claim says no flush.  The code flushes that single request. *)
Lemma C3_counterexample :
  @__init__ Demo.runtime Demo.model 3 10 0 = inr Demo.batcher /\
  new_calls Demo.batcher (snd (add_request Demo.a 100 101 Demo.batcher))
    = [Model.Predict [Demo.a]; Model.PredictProba [Demo.a]] /\
  batch_queue (snd (add_request Demo.a 100 101 Demo.batcher)) = [] /\
  spec_flush 3 10 (len (batch_queue Demo.batcher ++ [Demo.a])) 100 100
    = false.
Proof. repeat split; reflexivity. Qed.

(** What an arrival does to [last_batch_time]: a completed flush sets it
    to the clock reading taken at its end, anything else leaves it. *)
Lemma add_request_clock (s : t) (f : Features) (now finished : Q) :
  let batch := slice_to (batch_size s) (batch_queue s ++ [f]) in
  let s' := snd (add_request f now finished s) in
  (completed_flush f now finished s = true <->
     new_calls s s' <> [] /\
     (exists ps, Model.predict (model s) batch = inr ps) /\
     (exists qs, Model.predict_proba (model s) batch = inr qs)) /\
  last_batch_time s'
  = (if completed_flush f now finished s then finished
     else last_batch_time s).
Proof.
  intros batch s'. unfold completed_flush. fold s'.
  destruct (add_request_cases s f now finished)
    as (_ & _ & _ & _ & Hquiet & Hflush).
  cbv zeta in Hquiet, Hflush. fold batch s' in Hquiet, Hflush.
  destruct ((len (batch_queue s ++ [f]) >=? batch_size s)
            || Qgeb (now - last_batch_time s) (max_wait_time s)).
  - destruct (Hflush eq_refl) as [_ Hcalls]. unfold new_calls.
    destruct (Model.predict (model s) batch) as [e|ps].
    + destruct Hcalls as (-> & _ & ->). split; [|reflexivity].
      split; [discriminate|]. intros (_ & [ps Hps] & _). discriminate.
    + destruct Hcalls as (-> & Hproba). rewrite drop_app_length.
      destruct (Model.predict_proba (model s) batch) as [e|qs].
      * destruct Hproba as [-> ->]. split; [|reflexivity].
        split; [discriminate|]. intros (_ & _ & [qs Hqs]). discriminate.
      * destruct Hproba as [-> ->]. split; [|reflexivity].
        split; [|reflexivity]. intros _. split; [discriminate|]. eauto.
  - unfold new_calls, s'. rewrite (Hquiet eq_refl).
    cbn [fst snd set_batch_queue model last_batch_time].
    rewrite drop_all. split; [|reflexivity].
    split; [discriminate|]. intros (Hnew & _). congruence.
Qed.

Lemma run_clock arrivals : forall s : t,
  last_batch_time (run arrivals s)
  = last_flush_end (last_batch_time s) arrivals s.
Proof.
  induction arrivals as [|[[f now] finished] arrivals IH]; intros s;
    [reflexivity|].
  change (run (((f, now), finished) :: arrivals) s)
    with (run arrivals (snd (add_request f now finished s))).
  cbn [last_flush_end]. rewrite IH.
  destruct (add_request_clock s f now finished) as [_ Hclock].
  cbv zeta in Hclock. by rewrite Hclock.
Qed.

(** C3, amended: at every arrival the request is appended and the flush
    test is made at once; a flush occurs exactly when the queue then
    holds at least [batch_size] items or the time elapsed since
    [last_batch_time] is at least [max_wait_time], where
    [last_batch_time] is the time of construction or of the end of the
    last flush completed.  The flushed batch is the first [batch_size]
    items of the queue, at most [batch_size] of them when [batch_size] is
    not negative, and the rest stays queued.  Without a flush the arrival
    only appends to the queue.

    The first part is about [last_batch_time]: after any arrivals on a
    processor built when the clock read [t0], it is the reading taken at
    the end of the last flush in which both model calls returned, and
    [t0] when there was none.  The second part is the rule at one
    arrival, in any state and for any [batch_size]. *)
Theorem C3_flush_rule_at_arrival :
  (forall (m : Model.t) (size : Z) (wait t0 : Q) (s0 : t)
          (arrivals : list (Features * Q * Q)),
      __init__ m size wait t0 = inr s0 ->
      last_batch_time (run arrivals s0) = last_flush_end t0 arrivals s0) /\
  (forall (s : t) (f : Features) (now finished : Q),
      let q := batch_queue s ++ [f] in
      let batch := slice_to (batch_size s) q in
      let s' := snd (add_request f now finished s) in
      (new_calls s s' <> [] <->
         batch_size s <= len q
         \/ (max_wait_time s <= now - last_batch_time s)%Q) /\
      (new_calls s s' <> [] ->
         (exists rest, new_calls s s' = Model.Predict batch :: rest) /\
         batch_queue s' = slice_from (batch_size s) q /\
         batch ++ batch_queue s' = q /\
         (0 <= batch_size s -> len batch <= batch_size s)) /\
      (new_calls s s' = [] -> s' = set_batch_queue q s) /\
      (completed_flush f now finished s = true <->
         new_calls s s' <> [] /\
         (exists ps, Model.predict (model s) batch = inr ps) /\
         (exists qs, Model.predict_proba (model s) batch = inr qs)) /\
      last_batch_time s'
      = (if completed_flush f now finished s then finished
         else last_batch_time s)).
Proof.
  split.
  - intros m size wait t0 s0 arrivals Hinit.
    unfold __init__ in Hinit. injection Hinit as Hs0.
    rewrite run_clock. by rewrite <- Hs0.
  - intros s f now finished q batch s'.
    destruct (add_request_clock s f now finished) as [Hdone Hclock].
    cbv zeta in Hdone, Hclock. fold q batch s' in Hdone, Hclock.
    destruct (add_request_cases s f now finished)
      as (_ & _ & _ & _ & Hquiet & Hflush).
    cbv zeta in Hquiet, Hflush. fold q batch s' in Hquiet, Hflush.
    assert (Hdue :
      (len q >=? batch_size s)
      || Qgeb (now - last_batch_time s) (max_wait_time s) = true
      <-> batch_size s <= len q
          \/ (max_wait_time s <= now - last_batch_time s)%Q).
    { rewrite orb_true_iff, Z.geb_leb, Z.leb_le. unfold Qgeb.
      by rewrite Qle_bool_iff. }
    split; [|split; [|split; [|split; [exact Hdone|exact Hclock]]]].
    + destruct ((len q >=? batch_size s)
                || Qgeb (now - last_batch_time s) (max_wait_time s)).
      * destruct (Hflush eq_refl) as [_ Hcalls]. unfold new_calls.
        split; [intros _; by apply Hdue|]. intros _.
        destruct (Model.predict (model s) batch) as [e|ps].
        -- destruct Hcalls as (_ & -> & _). by rewrite drop_app_length.
        -- destruct Hcalls as (-> & _). by rewrite drop_app_length.
      * unfold new_calls, s'. rewrite (Hquiet eq_refl).
        cbn [snd set_batch_queue model]. rewrite drop_all.
        split; [congruence|]. intros Hd%Hdue. discriminate.
    + intros Hnew.
      destruct ((len q >=? batch_size s)
                || Qgeb (now - last_batch_time s) (max_wait_time s)).
      * destruct (Hflush eq_refl) as [Hqueue Hcalls].
        split; [|split; [exact Hqueue|split]].
        -- unfold new_calls.
           destruct (Model.predict (model s) batch) as [e|ps].
           ++ destruct Hcalls as (_ & -> & _). rewrite drop_app_length. eauto.
           ++ destruct Hcalls as (-> & _). rewrite drop_app_length. eauto.
        -- rewrite Hqueue. apply slice_split.
        -- intros Hsize. by apply slice_to_length.
      * exfalso. apply Hnew. unfold new_calls, s'. rewrite (Hquiet eq_refl).
        cbn [snd set_batch_queue model]. apply drop_all.
    + intros Hnone.
      destruct ((len q >=? batch_size s)
                || Qgeb (now - last_batch_time s) (max_wait_time s)).
      * exfalso. destruct (Hflush eq_refl) as [_ Hcalls].
        revert Hnone. unfold new_calls.
        destruct (Model.predict (model s) batch) as [e|ps].
        -- destruct Hcalls as (_ & -> & _). by rewrite drop_app_length.
        -- destruct Hcalls as (-> & _). by rewrite drop_app_length.
      * unfold s'. by rewrite (Hquiet eq_refl).
Qed.

(** [batch_size=3] and a long [max_wait_time]: the third arrival flushes
    the three requests in arrival order, and a fourth starts a new
    batch. *)
Example three_then_one :
  let s3 := run [(Demo.a, 1, 1); (Demo.b, 2, 2); (Demo.c, 3, 3)]%Q
              Demo.batcher in
  Model.received (model s3)
  = [Model.Predict [Demo.a; Demo.b; Demo.c];
     Model.PredictProba [Demo.a; Demo.b; Demo.c]] /\
  batch_queue s3 = [] /\
  new_calls s3 (snd (add_request Demo.a 4 4 s3)) = [] /\
  batch_queue (snd (add_request Demo.a 4 4 s3)) = [Demo.a].
Proof. repeat split; reflexivity. Qed.

(** [batch_size=100] and [max_wait_time=0]: every arrival is flushed at
    once, alone. *)
Example no_wait_flushes_each (s : t) (f : Features) (now finished : Q) :
  batch_size s = 100 ->
  max_wait_time s = 0%Q ->
  batch_queue s = [] ->
  (last_batch_time s <= now)%Q ->
  exists rest,
    new_calls s (snd (add_request f now finished s))
    = Model.Predict [f] :: rest /\
    batch_queue (snd (add_request f now finished s)) = [].
Proof.
  intros Hsize Hwait Hq Hnow.
  unfold add_request, _process_batch, model_predict, model_predict_proba,
    new_calls.
  step_m.
  cbn [set_batch_queue batch_queue batch_size last_batch_time
       max_wait_time model].
  rewrite Hsize, Hwait, Hq. cbn [app].
  assert (Qgeb (now - last_batch_time s) 0 = true) as ->.
  { unfold Qgeb. apply Qle_bool_iff.
    apply (Qplus_le_r _ _ (last_batch_time s)). ring_simplify. exact Hnow. }
  rewrite orb_true_r. cbn [andb].
  cbn [set_model model Model.record Model.predict Model.predict_proba
       Model.received set_batch_queue batch_queue batch_size].
  repeat case_match; simplify_eq/=;
    rewrite <- ?app_assoc, ?drop_app_length; rewrite ?Hsize;
    eexists; split; reflexivity.
Qed.

(** A flush whose two model calls return records the clock reading taken
    at its end. *)
Lemma flush_records_time (s : t) (f : Features) (now finished : Q) ps qs :
  let q := batch_queue s ++ [f] in
  let batch := slice_to (batch_size s) q in
  new_calls s (snd (add_request f now finished s)) <> [] ->
  Model.predict (model s) batch = inr ps ->
  Model.predict_proba (model s) batch = inr qs ->
  last_batch_time (snd (add_request f now finished s)) = finished.
Proof.
  intros q batch. subst q batch.
  unfold add_request, _process_batch, model_predict, model_predict_proba,
    new_calls.
  step_m.
  cbn [set_batch_queue batch_queue batch_size last_batch_time
       max_wait_time model].
  destruct ((len (batch_queue s ++ [f]) >=? batch_size s)
            || Qgeb (now - last_batch_time s) (max_wait_time s)).
  - destruct (batch_queue s ++ [f]) as [|x q'] eqn:Eq;
      [by destruct (batch_queue s)|].
    cbn [andb set_model model Model.record Model.predict
         Model.predict_proba set_batch_queue batch_queue batch_size].
    intros _ -> ->. reflexivity.
  - cbn [andb]. simpl. rewrite drop_all. congruence.
Qed.
End BatchProcessorFacts.

Lemma C3_flush_rule_at_arrival_witness :
  BatchProcessor.last_batch_time
    (BatchProcessor.run [(Demo.a, 100, 101); (Demo.b, 102, 103)]%Q
       Demo.batcher)
  = BatchProcessor.last_flush_end 0
      [(Demo.a, 100, 101); (Demo.b, 102, 103)]%Q Demo.batcher /\
  len (slice_to (BatchProcessor.batch_size Demo.batcher)
         (BatchProcessor.batch_queue Demo.batcher ++ [Demo.a]))
  <= BatchProcessor.batch_size Demo.batcher.
Proof.
  split.
  - apply (proj1 (@C3_flush_rule_at_arrival Demo.runtime)
             Demo.model 3 10%Q 0%Q Demo.batcher).
    reflexivity.
  - apply (proj2 (@C3_flush_rule_at_arrival Demo.runtime)
             Demo.batcher Demo.a 100%Q 101%Q).
    + vm_compute. discriminate.
    + simpl. lia.
Defined.

(** ** Constructors *)

Section Constructors.
Context `{Runtime}.


(** A capacity that is not positive shows only at the first miss, which
    finds no oldest key to drop. *)
Lemma zero_capacity_fails_late (m : Model.t) (size : Z) (f : Features) s0 :
  size <= 0 ->
  CachingLayer.answers m f ->
  CachingLayer.__init__ m size = inr s0 ->
  fst (CachingLayer.predict f s0) = inl StopIteration.
Proof.
  intros Hsize [(p & ps & Hp) (q & qs & Hq)] Hinit.
  unfold CachingLayer.__init__ in Hinit. injection Hinit as <-.
  unfold CachingLayer.predict, CachingLayer.model_predict,
    CachingLayer.model_predict_proba.
  step_m. simpl. rewrite Hp. simpl. rewrite Hq. simpl.
  assert ((len (@nil (string * CachingLayer.Result)) >=? size) = true)
    as ->; [|reflexivity].
  rewrite Z.geb_leb. apply Z.leb_le. unfold len. simpl. lia.
Qed.

End Constructors.

(** * Further properties *)

(** ** AutoScaler: decisions *)

Section AutoScalerMore.
Import AutoScaler.

(** The scale-up test of [should_scale]. *)
Lemma should_scale_up_branch metrics s :
  Qgtb (get metrics "cpu_usage" 0) (scale_up_threshold s)
  || Qgtb (get metrics "avg_latency_ms" 0) 1000
  || Qgtb (get metrics "request_rate" 0) 100 = true ->
  should_scale metrics s
  = if current_instances s <? max_instances s
    then (inr 1, set_current_instances (current_instances s + 1) s)
    else (inr 0, s).
Proof.
  intros Hup. unfold should_scale. step_m. rewrite Hup.
  destruct (current_instances s <? max_instances s) eqn:Hlt; [|reflexivity].
  zify_bool. do 2 f_equal. lia.
Qed.

(** A scale-up condition makes the scale-up test true. *)
Lemma scale_up_condition metrics s :
  (scale_up_threshold s < get metrics "cpu_usage" 0
   \/ 1000 < get metrics "avg_latency_ms" 0
   \/ 100 < get metrics "request_rate" 0)%Q ->
  Qgtb (get metrics "cpu_usage" 0) (scale_up_threshold s)
  || Qgtb (get metrics "avg_latency_ms" 0) 1000
  || Qgtb (get metrics "request_rate" 0) 100 = true.
Proof.
  intros Hup. unfold Qgtb. rewrite !orb_true_iff, !negb_true_iff.
  destruct Hup as [Hc | [Hl | Hr]];
    [left; left | left; right | right];
    apply not_true_is_false; intros Hle%Qle_bool_iff;
    eapply Qlt_not_le; eauto.
Qed.

(** X1: whatever the metrics and the state, [should_scale] returns -1, 0
    or 1, the instance count changes by exactly the value returned, and
    the value is 0 exactly when the state is unchanged. *)
Theorem X1_decision_is_the_change metrics s :
  exists d,
    fst (should_scale metrics s) = inr d /\
    (d = -1 \/ d = 0 \/ d = 1) /\
    current_instances (snd (should_scale metrics s))
      = current_instances s + d /\
    (d = 0 <-> snd (should_scale metrics s) = s).
Proof.
  unfold should_scale. step_m.
  repeat match goal with
    | |- context [if ?b then _ else _] => destruct b eqn:?
    end; simpl; zify_bool; eexists; (split; [reflexivity|]);
    (split; [lia|]); (split; [lia|]);
    (split; [try discriminate; reflexivity|]);
    intros Heq; apply (f_equal current_instances) in Heq; simpl in Heq; lia.
Qed.

(** X2: a scale-up condition (cpu above [scale_up_threshold], latency
    above 1000 or request rate above 100) takes priority: the count never
    goes down on such metrics, also when they satisfy the scale-down
    condition too, and it goes up by one exactly when it is below
    [max_instances]. *)
Theorem X2_scale_up_takes_priority metrics s :
  let cpu := get metrics "cpu_usage" 0 in
  let latency := get metrics "avg_latency_ms" 0 in
  let rate := get metrics "request_rate" 0 in
  (scale_up_threshold s < cpu \/ 1000 < latency \/ 100 < rate)%Q ->
  (current_instances s < max_instances s ->
     should_scale metrics s
     = (inr 1, set_current_instances (current_instances s + 1) s)) /\
  (max_instances s <= current_instances s ->
     should_scale metrics s = (inr 0, s)).
Proof.
  intros cpu latency rate Hup.
  rewrite (should_scale_up_branch metrics s (scale_up_condition _ _ Hup)).
  split; intros Hcur.
  - by apply Z.ltb_lt in Hcur as ->.
  - by apply Z.ltb_ge in Hcur as ->.
Qed.

Lemma X2_scale_up_takes_priority_witness :
  should_scale Demo.busy (set_current_instances 5 Demo.scaler)
  = (inr 0, set_current_instances 5 Demo.scaler).
Proof.
  apply (X2_scale_up_takes_priority Demo.busy
           (set_current_instances 5 Demo.scaler)).
  - left. reflexivity.
  - simpl. lia.
Defined.

(** X3: on a scaler built with [min_instances <= max_instances], [k]
    calls in a row with metrics that satisfy a scale-up condition leave
    [min(min_instances + k, max_instances)] instances: one more per call
    until the maximum, where the count stays. *)
Theorem X3_scale_up_until_max lo hi cpu up down metrics s0 (k : nat) :
  lo <= hi ->
  __init__ lo hi cpu up down = inr s0 ->
  (up < get metrics "cpu_usage" 0
   \/ 1000 < get metrics "avg_latency_ms" 0
   \/ 100 < get metrics "request_rate" 0)%Q ->
  map snd (trace (replicate k metrics) s0)
  = map (fun i => Z.min (lo + Z.of_nat i) hi) (seq 1 k).
Proof.
  intros Hle Hinit Hup. unfold __init__ in Hinit. injection Hinit as Hs0.
  assert (Hgen : forall (j : nat) s,
             scale_up_threshold s = up -> max_instances s = hi ->
             current_instances s = Z.min (lo + Z.of_nat j) hi ->
             map snd (trace (replicate k metrics) s)
             = map (fun i => Z.min (lo + Z.of_nat i) hi) (seq (S j) k)).
  { induction k as [|k IH]; intros j s Hthr Hmax Hcur; [reflexivity|].
    cbn [replicate trace seq map].
    assert (Hup' : (scale_up_threshold s < get metrics "cpu_usage" 0
                    \/ 1000 < get metrics "avg_latency_ms" 0
                    \/ 100 < get metrics "request_rate" 0)%Q)
      by (by rewrite Hthr).
    rewrite (should_scale_up_branch metrics s (scale_up_condition _ _ Hup')).
    destruct (current_instances s <? max_instances s) eqn:Hlt; zify_bool.
    - cbn [map snd set_current_instances current_instances].
      f_equal; [lia|]. apply IH; simpl; [exact Hthr|exact Hmax|lia].
    - cbn [map snd]. f_equal; [lia|]. apply IH; [exact Hthr|exact Hmax|lia]. }
  apply (Hgen 0%nat); rewrite <- Hs0; simpl; [reflexivity|reflexivity|lia].
Qed.

Lemma X3_scale_up_until_max_witness :
  map snd (trace (replicate 7 Demo.busy) Demo.scaler)
  = map (fun i => Z.min (1 + Z.of_nat i) 5) (seq 1 7).
Proof.
  apply (X3_scale_up_until_max 1 5 default_target_cpu
           default_scale_up_threshold default_scale_down_threshold).
  - lia.
  - reflexivity.
  - left. reflexivity.
Defined.

(** X4: a scaler built with [min_instances > max_instances] is stuck:
    in every state it reaches, the count is [min_instances], and every
    decision is 0, whatever the metrics. *)
Theorem X4_inverted_bounds_never_scale lo hi cpu up down s metrics :
  hi < lo ->
  reachable lo hi cpu up down s ->
  current_instances s = lo /\
  should_scale metrics s = (inr 0, s).
Proof.
  intros Hinv Hr.
  assert (Hstuck : forall s metrics,
             min_instances s = lo -> max_instances s = hi ->
             current_instances s = lo ->
             should_scale metrics s = (inr 0, s)).
  { clear s metrics Hr. intros s metrics Hmin Hmax Hcur.
    unfold should_scale. step_m.
    repeat match goal with
      | |- context [if ?b then _ else _] => destruct b eqn:?
      end; simpl; zify_bool; solve [reflexivity | lia]. }
  assert (Hall : min_instances s = lo /\ max_instances s = hi
                 /\ current_instances s = lo).
  { induction Hr as [s Hinit | s m Hr IH].
    - unfold __init__ in Hinit. injection Hinit as <-. by simpl.
    - destruct IH as (Hmin & Hmax & Hcur).
      by rewrite (Hstuck s m Hmin Hmax Hcur). }
  destruct Hall as (Hmin & Hmax & Hcur). split; [exact Hcur|].
  by apply Hstuck.
Qed.

Lemma X4_inverted_bounds_never_scale_witness :
  should_scale Demo.busy
    {| min_instances := 5; max_instances := 1;
       target_cpu := default_target_cpu;
       scale_up_threshold := default_scale_up_threshold;
       scale_down_threshold := default_scale_down_threshold;
       current_instances := 5 |}
  = (inr 0,
     {| min_instances := 5; max_instances := 1;
        target_cpu := default_target_cpu;
        scale_up_threshold := default_scale_up_threshold;
        scale_down_threshold := default_scale_down_threshold;
        current_instances := 5 |}).
Proof.
  apply (X4_inverted_bounds_never_scale 5 1 default_target_cpu
           default_scale_up_threshold default_scale_down_threshold).
  - lia.
  - apply reach_init. reflexivity.
Defined.
End AutoScalerMore.

(** ** CachingLayer: results, failures and small capacities *)

Section CachingLayerMore.
Context `{Runtime}.
Import CachingLayer.

Lemma dict_getitem_last {V} (d : list (string * V)) k v :
  dict_contains d k = false -> dict_getitem (d ++ [(k, v)]) k = inr v.
Proof.
  induction d as [|[k' v'] d IH]; simpl.
  - by rewrite String.eqb_refl.
  - destruct (String.eqb k' k); [discriminate|exact IH].
Qed.

(** A call that returns leaves its result under the key of the
    request. *)
Lemma predict_returns_cached f s r :
  fst (predict f s) = inr r ->
  dict_getitem (cache (snd (predict f s))) (_hash_features f) = inr r.
Proof.
  destruct (dict_contains (cache s) (_hash_features f)) eqn:Hc.
  - rewrite predict_hit by exact Hc. simpl. auto.
  - unfold predict, model_predict, model_predict_proba. step_m. rewrite Hc.
    cbn [model set_model incr_misses cache cache_size Model.record
         Model.predict Model.predict_proba].
    destruct (Model.predict (model s) [f]) as [e|ps]; [discriminate|].
    destruct (index0 ps) as [e|p]; [discriminate|].
    destruct (Model.predict_proba (model s) [f]) as [e|qs]; [discriminate|].
    destruct (index0 qs) as [e|q]; [discriminate|].
    destruct (len (cache s) >=? cache_size s).
    + destruct (cache s) as [|[k0 v0] d] eqn:Hd; [discriminate|].
      cbn [next_iter dict_delitem]. rewrite String.eqb_refl.
      cbn [fst snd set_cache cache]. intros [= <-].
      rewrite dict_setitem_absent by (by apply (dict_contains_tail _ _ Hc)).
      apply dict_getitem_last. by apply (dict_contains_tail _ _ Hc).
    + cbn [fst snd set_cache cache]. intros [= <-].
      rewrite dict_setitem_absent by exact Hc.
      by apply dict_getitem_last.
Qed.

(** X5: when [predict] returns a result for a request, hit or miss, the
    next [predict] of the same request returns the same result as a hit:
    [hits] grows by one, [misses] stays, and the model receives no
    call. *)
Theorem X5_result_is_served_from_cache f s r :
  fst (predict f s) = inr r ->
  let s1 := snd (predict f s) in
  fst (predict f s1) = inr r /\
  hits (snd (predict f s1)) = hits s1 + 1 /\
  misses (snd (predict f s1)) = misses s1 /\
  cache (snd (predict f s1)) = cache s1 /\
  model (snd (predict f s1)) = model s1.
Proof.
  intros Hr s1. pose proof (predict_returns_cached f s r Hr) as Hget.
  fold s1 in Hget.
  assert (Hc : dict_contains (cache s1) (_hash_features f) = true).
  { destruct (dict_contains (cache s1) (_hash_features f)) eqn:Hc;
      [reflexivity|].
    exfalso. clear -Hget Hc. induction (cache s1) as [|[k v] d IH];
      simpl in *; [discriminate|].
    destruct (String.eqb k (_hash_features f)); [discriminate|auto]. }
  rewrite predict_hit by exact Hc. simpl. by rewrite Hget.
Qed.

(** X6: a call of [predict] that raises was a miss: it leaves the cache
    and [hits] as they were and still adds one to [misses].  A hit never
    raises. *)
Theorem X6_failed_call_caches_nothing f s e :
  fst (predict f s) = inl e ->
  dict_contains (cache s) (_hash_features f) = false /\
  cache (snd (predict f s)) = cache s /\
  hits (snd (predict f s)) = hits s /\
  misses (snd (predict f s)) = misses s + 1.
Proof.
  destruct (dict_contains (cache s) (_hash_features f)) eqn:Hc.
  - rewrite predict_hit by exact Hc.
    destruct (dict_getitem_contains _ _ Hc) as [r ->]. discriminate.
  - intros He. destruct (predict_miss_counts f s Hc) as [Hh Hm].
    split; [reflexivity|]. split; [|by split].
    revert He. unfold predict, model_predict, model_predict_proba. step_m.
    rewrite Hc.
    cbn [model set_model incr_misses cache cache_size Model.record
         Model.predict Model.predict_proba].
    repeat case_match; simplify_eq/=; try reflexivity; discriminate.
Qed.

(** The number of different elements of a list of keys. *)
Lemma distinct_count (l : list string) :
  size (list_to_set l : gset string) = length (remove_dups l).
Proof.
  rewrite <- (size_list_to_set (C:=gset string) (remove_dups l))
    by apply NoDup_remove_dups.
  f_equal. apply set_eq. intros x.
  by rewrite !elem_of_list_to_set, elem_of_remove_dups.
Qed.

Lemma union_absorb_elem (U R : gset string) k :
  k ∈ U -> U ∪ ({[k]} ∪ R) = U ∪ R.
Proof.
  intros Hk. apply set_eq. intros x.
  rewrite !elem_of_union, elem_of_singleton. split.
  - intros [Hx | [-> | Hx]]; auto.
  - intros [Hx | Hx]; auto.
Qed.

Lemma union_singleton_assoc (U R : gset string) k :
  U ∪ {[k]} ∪ R = U ∪ ({[k]} ∪ R).
Proof. by rewrite (assoc_L (∪)). Qed.

Lemma size_with_new_elem (U R : gset string) k :
  k ∉ U -> (size U + 1 <= size (U ∪ ({[k]} ∪ R)))%nat.
Proof.
  intros Hk. rewrite <- union_singleton_assoc.
  transitivity (size (U ∪ {[k]})).
  - rewrite size_union, size_singleton; [reflexivity|].
    intros x Hx ->%elem_of_singleton. exact (Hk Hx).
  - apply subseteq_size, union_subseteq_l.
Qed.

(** As long as the keys in the cache and the keys requested fit in the
    cache together, nothing is evicted: the cache ends up holding all of
    them, and only the first request of a key is a miss. *)
Lemma run_without_eviction requests : forall s,
  0 < cache_size s ->
  NoDup (keys (cache s)) ->
  Z.of_nat (size (list_to_set (keys (cache s))
                  ∪ list_to_set (map _hash_features requests)
                  : gset string)) <= cache_size s ->
  (forall f, f ∈ requests -> answers (model s) f) ->
  (list_to_set (keys (cache (run requests s))) : gset string)
  = list_to_set (keys (cache s))
    ∪ list_to_set (map _hash_features requests) /\
  NoDup (keys (cache (run requests s))) /\
  misses (run requests s)
  = misses s
    + Z.of_nat (size (list_to_set (keys (cache s))
                      ∪ list_to_set (map _hash_features requests)
                      : gset string))
    - len (cache s).
Proof.
  induction requests as [|f fs IH]; intros s Hsize Hnd Hfit Hans.
  - simpl. rewrite union_empty_r_L. split; [reflexivity|].
    split; [exact Hnd|]. rewrite size_list_to_set by exact Hnd.
    unfold len, keys. rewrite length_map. lia.
  - rewrite run_cons. cbn [map] in *. rewrite list_to_set_cons in *.
    destruct (predict_frame f s) as (Hcs & _).
    assert (Hans' : forall g, g ∈ fs -> answers (model (snd (predict f s))) g).
    { intros g Hg. apply answers_after, Hans. by right. }
    destruct (dict_contains (cache s) (_hash_features f)) eqn:Hc.
    + assert (Hk : _hash_features f
                   ∈ (list_to_set (keys (cache s)) : gset string))
        by (apply elem_of_list_to_set; by apply dict_contains_keys).
      rewrite (union_absorb_elem _ _ _ Hk) in *.
      assert (Hsame : cache (snd (predict f s)) = cache s)
        by (by rewrite predict_hit by exact Hc).
      assert (Hm : misses (snd (predict f s)) = misses s)
        by (by rewrite predict_hit by exact Hc).
      destruct (IH (snd (predict f s))) as (Hset & Hnd' & Hmiss).
      * by rewrite Hcs.
      * by rewrite Hsame.
      * by rewrite Hsame, Hcs.
      * exact Hans'.
      * rewrite Hsame, Hm in *. auto.
    + assert (Hk : _hash_features f
                   ∉ (list_to_set (keys (cache s)) : gset string)).
      { rewrite elem_of_list_to_set. by apply dict_contains_absent. }
      assert (Hlen : len (cache s) < cache_size s).
      { pose proof (size_with_new_elem _
                      (list_to_set (map _hash_features fs)) _ Hk) as Hsub.
        rewrite size_list_to_set in Hsub at 1 by exact Hnd.
        unfold len, keys in *. rewrite length_map in Hsub. lia. }
      destruct (predict_store f s Hsize Hc) as [r Hnew];
        [apply Hans; by left|].
      assert ((len (cache s) >=? cache_size s) = false) as Hnf
        by (rewrite Z.geb_leb; apply Z.leb_gt; lia).
      rewrite Hnf in Hnew.
      destruct (predict_miss_counts f s Hc) as [_ Hm].
      assert (Hkeys : keys (cache (snd (predict f s)))
                      = keys (cache s) ++ [_hash_features f]).
      { rewrite Hnew. unfold keys. by rewrite map_app. }
      assert (HU1 : (list_to_set (keys (cache (snd (predict f s))))
                     : gset string)
                    = list_to_set (keys (cache s)) ∪ {[_hash_features f]}).
      { rewrite Hkeys, list_to_set_app_L. f_equal.
        simpl. by rewrite union_empty_r_L. }
      destruct (IH (snd (predict f s))) as (Hset & Hnd' & Hmiss).
      * by rewrite Hcs.
      * rewrite Hkeys. apply NoDup_app. split; [exact Hnd|].
        split; [|apply NoDup_singleton].
        intros x Hx ->%list_elem_of_singleton.
        apply Hk. by apply elem_of_list_to_set.
      * rewrite HU1, union_singleton_assoc, Hcs. exact Hfit.
      * exact Hans'.
      * rewrite HU1, union_singleton_assoc in Hset, Hmiss.
        split; [exact Hset|]. split; [exact Hnd'|].
        rewrite Hmiss, Hm, Hnew. unfold len. rewrite length_app. simpl. lia.
Qed.

(** X7: on a caching layer whose [cache_size] is at least the number of
    different fingerprints requested, with a model that answers every
    request, nothing is ever evicted: [misses] is the number of different
    fingerprints, [hits] is the number of repeated requests, and every
    requested fingerprint is in the cache at the end. *)
Theorem X7_large_cache_misses_once_per_key m size s0 requests :
  0 < size ->
  __init__ m size = inr s0 ->
  len (remove_dups (map _hash_features requests)) <= size ->
  (forall f, f ∈ requests -> answers m f) ->
  let s := run requests s0 in
  misses s = len (remove_dups (map _hash_features requests)) /\
  hits s = len requests - len (remove_dups (map _hash_features requests)) /\
  len (cache s) = len (remove_dups (map _hash_features requests)) /\
  (forall f, f ∈ requests ->
     dict_contains (cache s) (_hash_features f) = true).
Proof.
  intros Hsize Hinit Hfit Hans s.
  unfold __init__ in Hinit. injection Hinit as Hs0.
  assert (Hsz0 : cache_size s0 = size) by (by rewrite <- Hs0).
  assert (Hcache0 : cache s0 = []) by (by rewrite <- Hs0).
  assert (Hm0 : model s0 = m) by (by rewrite <- Hs0).
  assert (Hh0 : hits s0 = 0 /\ misses s0 = 0) by (by rewrite <- Hs0).
  unfold len in Hfit. rewrite <- distinct_count in Hfit.
  destruct (run_without_eviction requests s0) as (Hset & Hnd & Hmiss).
  - by rewrite Hsz0.
  - rewrite Hcache0. apply NoDup_nil_2.
  - rewrite Hcache0, Hsz0. simpl. by rewrite union_empty_l_L.
  - by rewrite Hm0.
  - fold s in Hset, Hnd, Hmiss. rewrite Hcache0 in Hset, Hmiss.
    simpl in Hset, Hmiss. rewrite union_empty_l_L in Hset, Hmiss.
    destruct (run_counts requests s0) as (_ & _ & Hsum); [lia|lia|].
    fold s in Hsum. unfold len in *. rewrite <- !distinct_count.
    destruct Hh0 as [Hh0 Hm0']. cbn [length] in Hmiss.
    split; [lia|]. split; [lia|]. split.
    + rewrite <- Hset, size_list_to_set by exact Hnd.
      unfold keys. by rewrite length_map.
    + intros f Hf. apply dict_contains_keys.
      apply (elem_of_list_to_set (C:=gset string)). rewrite Hset.
      apply elem_of_list_to_set.
      by apply list_elem_of_In, in_map, list_elem_of_In.
Qed.

(** With an empty cache and a capacity that is not positive, no call can
    store anything. *)
Lemma predict_empty_nonpositive f s :
  cache_size s <= 0 ->
  cache s = [] ->
  cache (snd (predict f s)) = [] /\
  hits (snd (predict f s)) = hits s /\
  (answers (model s) f -> fst (predict f s) = inl StopIteration).
Proof.
  intros Hsize Hempty.
  assert (Hc : dict_contains (cache s) (_hash_features f) = false)
    by (by rewrite Hempty).
  destruct (predict_miss_counts f s Hc) as [Hh _].
  split; [|split; [exact Hh|]].
  - unfold predict, model_predict, model_predict_proba. step_m. rewrite Hc.
    cbn [model set_model incr_misses cache cache_size Model.record
         Model.predict Model.predict_proba].
    rewrite Hempty.
    assert ((len (@nil (string * Result)) >=? cache_size s) = true) as ->.
    { rewrite Z.geb_leb. apply Z.leb_le. unfold len. simpl. lia. }
    repeat case_match; simplify_eq/=; solve [reflexivity | exact Hempty].
  - intros [(p & ps & Hp) (q & qs & Hq)].
    unfold predict, model_predict, model_predict_proba. step_m. rewrite Hc.
    cbn [model set_model incr_misses cache cache_size Model.record
         Model.predict Model.predict_proba].
    rewrite Hp, Hq, Hempty. cbn [index0].
    assert ((len (@nil (string * Result)) >=? cache_size s) = true) as ->.
    { rewrite Z.geb_leb. apply Z.leb_le. unfold len. simpl. lia. }
    reflexivity.
Qed.

(** X8: a caching layer built with a [cache_size] of 0 or less never
    caches: in every state it reaches the cache is empty and [hits] is 0,
    and every request that the model answers ends in [StopIteration],
    after the model has computed the prediction. *)
Theorem X8_nonpositive_capacity_never_caches m size s f :
  size <= 0 ->
  reachable m size s ->
  cache s = [] /\
  hits s = 0 /\
  (answers m f ->
     fst (predict f s) = inl StopIteration /\
     Model.received (model (snd (predict f s)))
     = Model.received (model s)
       ++ [Model.Predict [f]; Model.PredictProba [f]]).
Proof.
  intros Hsize Hr.
  assert (Hinv : cache_size s = size /\ cache s = [] /\ hits s = 0
                 /\ Model.predict (model s) = Model.predict m
                 /\ Model.predict_proba (model s) = Model.predict_proba m).
  { induction Hr as [s Hinit | s g Hr IH].
    - unfold __init__ in Hinit. injection Hinit as <-. by simpl.
    - destruct IH as (Hcs & Hempty & Hh & Hp & Hq).
      destruct (predict_frame g s) as (-> & -> & -> & _).
      destruct (predict_empty_nonpositive g s) as (-> & -> & _);
        [lia|exact Hempty|]. auto. }
  destruct Hinv as (Hcs & Hempty & Hh & Hp & Hq).
  split; [exact Hempty|]. split; [exact Hh|].
  intros Hans.
  assert (Hans' : answers (model s) f)
    by (unfold answers; by rewrite Hp, Hq).
  destruct (predict_empty_nonpositive f s) as (_ & _ & Hstop);
    [lia|exact Hempty|].
  split; [by apply Hstop|].
  destruct Hans' as [(p & ps & Hp') (q & qs & Hq')].
  unfold predict, model_predict, model_predict_proba. step_m.
  rewrite Hempty. cbn [dict_contains].
  cbn [model set_model incr_misses cache cache_size Model.record
       Model.predict Model.predict_proba].
  rewrite Hp', Hq', Hempty. cbn [index0].
  assert ((len (@nil (string * Result)) >=? cache_size s) = true) as ->.
  { rewrite Z.geb_leb. apply Z.leb_le. unfold len. simpl. lia. }
  simpl. by rewrite <- app_assoc.
Qed.

(** X9: eviction follows insertion order, not use.  With [cache_size = 2]
    and requests a, b, c of different fingerprints that the model
    answers: after [predict] on a, b, a (a hit) and c, the entry of a is
    gone and the entries of b and c are kept, although a was used after
    b. *)
Theorem X9_hit_does_not_protect_from_eviction m s0 a b c :
  __init__ m 2 = inr s0 ->
  answers m a -> answers m b -> answers m c ->
  _hash_features a <> _hash_features b ->
  _hash_features a <> _hash_features c ->
  _hash_features b <> _hash_features c ->
  keys (cache (run [a; b; a; c] s0))
  = [_hash_features b; _hash_features c] /\
  hits (run [a; b; a; c] s0) = 1 /\
  misses (run [a; b; a; c] s0) = 3.
Proof.
  intros Hinit Ha Hb Hc Hab Hac Hbc.
  unfold __init__ in Hinit. injection Hinit as Hs0.
  assert (Hsz0 : cache_size s0 = 2) by (by rewrite <- Hs0).
  assert (Hcache0 : cache s0 = []) by (by rewrite <- Hs0).
  assert (Hm0 : model s0 = m) by (by rewrite <- Hs0).
  assert (Hh0 : hits s0 = 0 /\ misses s0 = 0) by (by rewrite <- Hs0).
  rewrite <- Hm0 in Ha, Hb, Hc. clear Hs0 Hm0. destruct Hh0 as [Hh0 Hmi0].
  rewrite !run_cons. cbn [run foldl].
  set (s1 := snd (predict a s0)).
  set (s2 := snd (predict b s1)).
  set (s3 := snd (predict a s2)).
  set (s4 := snd (predict c s3)).
  assert (Hsz1 : cache_size s1 = 2)
    by (unfold s1; destruct (predict_frame a s0) as (-> & _); exact Hsz0).
  assert (Hsz2 : cache_size s2 = 2)
    by (unfold s2; destruct (predict_frame b s1) as (-> & _); exact Hsz1).
  (* a is stored *)
  assert (Hna0 : dict_contains (cache s0) (_hash_features a) = false)
    by (by rewrite Hcache0).
  destruct (predict_store a s0) as (ra & Hc1); [lia|exact Hna0|exact Ha|].
  fold s1 in Hc1. rewrite Hsz0, Hcache0 in Hc1. simpl in Hc1.
  destruct (predict_miss_counts a s0 Hna0) as [Hh1 Hmi1].
  fold s1 in Hh1, Hmi1.
  (* b is stored *)
  assert (Hnb1 : dict_contains (cache s1) (_hash_features b) = false).
  { rewrite Hc1. simpl. by apply String.eqb_neq in Hab as ->. }
  destruct (predict_store b s1) as (rb & Hc2);
    [lia|exact Hnb1|by apply answers_after|].
  fold s2 in Hc2. rewrite Hsz1, Hc1 in Hc2. simpl in Hc2.
  destruct (predict_miss_counts b s1 Hnb1) as [Hh2 Hmi2].
  fold s2 in Hh2, Hmi2.
  (* a is a hit *)
  assert (Hya2 : dict_contains (cache s2) (_hash_features a) = true).
  { rewrite Hc2. simpl. by rewrite String.eqb_refl. }
  assert (Hs3 : s3 = incr_hits s2)
    by (unfold s3; by rewrite predict_hit by exact Hya2).
  (* c evicts a *)
  assert (Hnc3 : dict_contains (cache s3) (_hash_features c) = false).
  { rewrite Hs3. cbn [incr_hits cache]. rewrite Hc2. simpl.
    apply String.eqb_neq in Hac as ->.
    by apply String.eqb_neq in Hbc as ->. }
  destruct (predict_store c s3) as (rc & Hc4).
  { rewrite Hs3. simpl. lia. }
  { exact Hnc3. }
  { unfold s3. by do 3 apply answers_after. }
  fold s4 in Hc4. rewrite Hs3 in Hc4. cbn [incr_hits cache cache_size] in Hc4.
  rewrite Hsz2, Hc2 in Hc4. simpl in Hc4.
  destruct (predict_miss_counts c s3 Hnc3) as [Hh4 Hmi4].
  fold s4 in Hh4, Hmi4. rewrite Hs3 in Hh4, Hmi4. simpl in Hh4, Hmi4.
  split; [by rewrite Hc4|]. lia.
Qed.
End CachingLayerMore.

Section CachingLayerMoreExamples.
Import CachingLayer.

Lemma X5_result_is_served_from_cache_witness :
  fst (predict Demo.a (snd (predict Demo.a Demo.cache2)))
  = inr {| prediction := 1; probability := [0.5; 0.5]%Q |}.
Proof.
  apply (@X5_result_is_served_from_cache Demo.runtime Demo.a Demo.cache2).
  reflexivity.
Defined.

Lemma X6_failed_call_caches_nothing_witness :
  misses (snd (predict Demo.a
                 {| model := Samples.broken; cache := []; cache_size := 2;
                    hits := 0; misses := 0 |})) = 0 + 1.
Proof.
  apply (@X6_failed_call_caches_nothing Demo.runtime Demo.a
           {| model := Samples.broken; cache := []; cache_size := 2;
              hits := 0; misses := 0 |} ModelError).
  reflexivity.
Defined.

Lemma X7_large_cache_misses_once_per_key_witness :
  misses (run [Demo.a; Demo.b; Demo.a; Demo.a; Demo.b] Demo.cache2)
  = len (remove_dups
           (map _hash_features [Demo.a; Demo.b; Demo.a; Demo.a; Demo.b])).
Proof.
  apply (@X7_large_cache_misses_once_per_key Demo.runtime Demo.model 2
           Demo.cache2 [Demo.a; Demo.b; Demo.a; Demo.a; Demo.b]).
  - lia.
  - reflexivity.
  - vm_compute. discriminate.
  - intros f _. destruct f as [|[k x] [|? ?]];
      try (split; do 2 eexists; reflexivity).
Defined.

Lemma X8_nonpositive_capacity_never_caches_witness :
  fst (predict Demo.a
         {| model := Demo.model; cache := []; cache_size := 0;
            hits := 0; misses := 0 |}) = inl StopIteration.
Proof.
  apply (@X8_nonpositive_capacity_never_caches Demo.runtime Demo.model 0
           {| model := Demo.model; cache := []; cache_size := 0;
              hits := 0; misses := 0 |} Demo.a).
  - lia.
  - apply reach_init. reflexivity.
  - apply demo_answers.
Defined.

Lemma X9_hit_does_not_protect_from_eviction_witness :
  keys (cache (run [Demo.a; Demo.b; Demo.a; Demo.c] Demo.cache2))
  = [_hash_features Demo.b; _hash_features Demo.c].
Proof.
  apply (@X9_hit_does_not_protect_from_eviction Demo.runtime Demo.model
           Demo.cache2 Demo.a Demo.b Demo.c);
    solve [reflexivity | apply demo_answers | vm_compute; discriminate].
Defined.
End CachingLayerMoreExamples.

(** ** BatchProcessor: what happens to the requests *)

Section BatchProcessorMore.
Context `{Runtime}.
Import BatchProcessor BatchTrace.

Lemma predicted_app (l1 l2 : list Model.call) :
  predicted (l1 ++ l2) = predicted l1 ++ predicted l2.
Proof.
  induction l1 as [|[df|df] l1 IH]; simpl; [reflexivity| |exact IH].
  by rewrite IH.
Qed.

(** One arrival adds its request to what was flushed or is queued. *)
Lemma add_request_conserves (s : t) (f : Features) (now finished : Q) :
  concat (predicted (Model.received
                       (model (snd (add_request f now finished s)))))
    ++ batch_queue (snd (add_request f now finished s))
  = concat (predicted (Model.received (model s)))
    ++ batch_queue s ++ [f].
Proof.
  destruct (add_request_cases s f now finished)
    as (_ & _ & _ & _ & Hquiet & Hflush).
  cbv zeta in Hquiet, Hflush.
  destruct ((len (batch_queue s ++ [f]) >=? batch_size s)
            || Qgeb (now - last_batch_time s) (max_wait_time s)).
  - destruct (Hflush eq_refl) as [-> Hcalls].
    assert (Hrec : predicted (Model.received
                     (model (snd (add_request f now finished s))))
                   = predicted (Model.received (model s))
                     ++ [slice_to (batch_size s) (batch_queue s ++ [f])]).
    { destruct (Model.predict (model s) _) as [e|ps].
      - destruct Hcalls as (_ & -> & _). by rewrite predicted_app.
      - destruct Hcalls as (-> & _). by rewrite predicted_app. }
    rewrite Hrec, concat_app. simpl. rewrite app_nil_r, <- app_assoc.
    by rewrite slice_split.
  - by rewrite (Hquiet eq_refl).
Qed.

(** X10: no request is lost, duplicated or reordered.  After any
    sequence of arrivals, in any state and for any [batch_size], the
    frames handed to [model.predict] so far, one after the other,
    followed by the queue, are what they were before followed by the
    requests that arrived, in arrival order; also when the model
    raises. *)
Theorem X10_requests_are_conserved arrivals : forall s : t,
  concat (predicted (Model.received (model (run arrivals s))))
    ++ batch_queue (run arrivals s)
  = concat (predicted (Model.received (model s)))
    ++ batch_queue s ++ requests arrivals.
Proof.
  induction arrivals as [|[[f now] finished] arrivals IH]; intros s.
  - simpl. by rewrite app_nil_r.
  - change (run (((f, now), finished) :: arrivals) s)
      with (run arrivals (snd (add_request f now finished s))).
    rewrite IH, app_assoc, add_request_conserves.
    cbn [requests map]. by rewrite <- !app_assoc.
Qed.

Lemma slice_whole {A} (n : Z) (l : list A) :
  len l <= n -> slice_to n l = l /\ slice_from n l = [].
Proof.
  intros Hn. unfold slice_to, slice_from, len in *.
  assert ((0 <=? n) = true) as -> by (apply Z.leb_le; lia).
  split; [apply take_ge | apply drop_ge]; lia.
Qed.

(** One arrival on a queue shorter than a positive [batch_size]: the
    queue stays shorter, and a flush takes all of it. *)
Lemma add_request_bound (s : t) (f : Features) (now finished : Q) :
  1 <= batch_size s ->
  len (batch_queue s) < batch_size s ->
  len (batch_queue (snd (add_request f now finished s))) < batch_size s /\
  (new_calls s (snd (add_request f now finished s)) <> [] ->
     batch_queue (snd (add_request f now finished s)) = [] /\
     exists rest,
       new_calls s (snd (add_request f now finished s))
       = Model.Predict (batch_queue s ++ [f]) :: rest).
Proof.
  intros Hsize Hlen.
  destruct (add_request_cases s f now finished)
    as (_ & _ & _ & _ & Hquiet & Hflush).
  cbv zeta in Hquiet, Hflush.
  assert (Hq : len (batch_queue s ++ [f]) <= batch_size s).
  { unfold len in *. rewrite length_app. simpl. lia. }
  destruct (slice_whole _ _ Hq) as [Hto Hfrom].
  destruct ((len (batch_queue s ++ [f]) >=? batch_size s)
            || Qgeb (now - last_batch_time s) (max_wait_time s)) eqn:Edue.
  - destruct (Hflush eq_refl) as [Hqueue Hcalls].
    rewrite Hqueue, Hfrom. rewrite Hto in Hcalls.
    split; [unfold len; simpl; lia|]. intros _. split; [reflexivity|].
    unfold new_calls.
    destruct (Model.predict (model s) (batch_queue s ++ [f])) as [e|ps].
    + destruct Hcalls as (_ & -> & _). rewrite drop_app_length. eauto.
    + destruct Hcalls as (-> & _). rewrite drop_app_length. eauto.
  - rewrite (Hquiet eq_refl). cbn [snd set_batch_queue batch_queue].
    apply orb_false_iff in Edue as [Efull _]. zify_bool.
    split; [exact Efull|]. unfold new_calls. simpl.
    rewrite drop_all. congruence.
Qed.

Lemma run_bound arrivals : forall s : t,
  1 <= batch_size s ->
  len (batch_queue s) < batch_size s ->
  batch_size (run arrivals s) = batch_size s /\
  len (batch_queue (run arrivals s)) < batch_size s.
Proof.
  induction arrivals as [|[[g t1] t2] arrivals IH]; intros s Hbs Hlen;
    [by split|].
  change (run (((g, t1), t2) :: arrivals) s)
    with (run arrivals (snd (add_request g t1 t2 s))).
  destruct (add_request_cases s g t1 t2) as (Hsame & _).
  destruct (add_request_bound s g t1 t2 Hbs Hlen) as [Hlen' _].
  cbv zeta in Hsame.
  destruct (IH (snd (add_request g t1 t2 s))) as [Hbs' Hq];
    rewrite ?Hsame; auto.
  rewrite Hsame in *. auto.
Qed.

(** X11: on a processor built with a [batch_size] of at least 1, the
    queue always holds fewer than [batch_size] requests between arrivals,
    so that every flush hands the whole queue, with the request just
    arrived, to the model and leaves the queue empty. *)
Theorem X11_flush_empties_the_queue
  m size wait t0 s0 arrivals (f : Features) (now finished : Q) :
  1 <= size ->
  __init__ m size wait t0 = inr s0 ->
  let s := run arrivals s0 in
  let s' := snd (add_request f now finished s) in
  len (batch_queue s) < size /\
  (new_calls s s' <> [] ->
     batch_queue s' = [] /\
     exists rest,
       new_calls s s' = Model.Predict (batch_queue s ++ [f]) :: rest).
Proof.
  intros Hsize Hinit s s'.
  unfold __init__ in Hinit. injection Hinit as Hs0.
  assert (Hbs0 : batch_size s0 = size) by (by rewrite <- Hs0).
  assert (Hq0 : len (batch_queue s0) < size)
    by (rewrite <- Hs0; unfold len; simpl; lia).
  destruct (run_bound arrivals s0) as [Hbs Hlen]; [lia|lia|].
  fold s in Hbs, Hlen. rewrite Hbs0 in Hbs, Hlen.
  split; [exact Hlen|].
  destruct (add_request_bound s f now finished) as [_ Hflush]; [lia|lia|].
  exact Hflush.
Qed.

(** X12: when the model raises on the batch of a flush, [add_request]
    raises the same exception, the batch has already left the queue and
    is not put back, [predict_proba] is not called, and
    [last_batch_time] keeps its value. *)
Theorem X12_failed_flush_drops_the_batch
  (s : t) (f : Features) (now finished : Q) (e : exn) :
  let q := batch_queue s ++ [f] in
  let batch := slice_to (batch_size s) q in
  let r := add_request f now finished s in
  (batch_size s <= len q
   \/ (max_wait_time s <= now - last_batch_time s)%Q) ->
  Model.predict (model s) batch = inl e ->
  fst r = inl e /\
  batch_queue (snd r) = slice_from (batch_size s) q /\
  batch ++ batch_queue (snd r) = q /\
  new_calls s (snd r) = [Model.Predict batch] /\
  last_batch_time (snd r) = last_batch_time s.
Proof.
  intros q batch r Hdue He.
  destruct (add_request_cases s f now finished)
    as (_ & _ & _ & _ & _ & Hflush).
  cbv zeta in Hflush. fold q batch r in Hflush.
  destruct Hflush as [Hqueue Hcalls].
  { apply orb_true_iff. destruct Hdue as [Hfull | Hlate].
    - left. rewrite Z.geb_leb. by apply Z.leb_le.
    - right. unfold Qgeb. by apply Qle_bool_iff. }
  rewrite He in Hcalls. destruct Hcalls as (Hraise & Hrec & Hlast).
  split; [exact Hraise|]. split; [exact Hqueue|].
  split; [rewrite Hqueue; apply slice_split|].
  split; [|exact Hlast].
  unfold new_calls. by rewrite Hrec, drop_app_length.
Qed.

(** X13: with a [batch_size] of 0 or less every arrival calls the model;
    with a [batch_size] of 0 the frame it gets is empty and the requests
    only pile up in the queue. *)
Theorem X13_nonpositive_batch_size
  (s : t) (f : Features) (now finished : Q) :
  batch_size s <= 0 ->
  let s' := snd (add_request f now finished s) in
  new_calls s s' <> [] /\
  (batch_size s = 0 ->
     batch_queue s' = batch_queue s ++ [f] /\
     exists rest, new_calls s s' = Model.Predict [] :: rest).
Proof.
  intros Hsize s'.
  destruct (add_request_cases s f now finished)
    as (_ & _ & _ & _ & _ & Hflush).
  cbv zeta in Hflush. fold s' in Hflush.
  destruct Hflush as [Hqueue Hcalls].
  { apply orb_true_iff. left. rewrite Z.geb_leb. apply Z.leb_le.
    unfold len. lia. }
  assert (Hnew : exists rest,
             new_calls s s'
             = Model.Predict (slice_to (batch_size s) (batch_queue s ++ [f]))
                 :: rest).
  { unfold new_calls.
    destruct (Model.predict (model s)
                (slice_to (batch_size s) (batch_queue s ++ [f]))) as [e|ps].
    - destruct Hcalls as (_ & -> & _). rewrite drop_app_length. eauto.
    - destruct Hcalls as (-> & _). rewrite drop_app_length. eauto. }
  destruct Hnew as [rest Hnew]. split; [by rewrite Hnew|].
  intros Hzero. rewrite Hqueue, Hnew, Hzero. split; [reflexivity|].
  by exists rest.
Qed.
End BatchProcessorMore.

Section BatchProcessorMoreExamples.
Import BatchProcessor BatchTrace.

Lemma X11_flush_empties_the_queue_witness :
  len (batch_queue (run [(Demo.a, 1, 1); (Demo.b, 2, 2)]%Q Demo.batcher)) < 3.
Proof.
  apply (@X11_flush_empties_the_queue Demo.runtime Demo.model 3 10 0
           Demo.batcher [(Demo.a, 1, 1); (Demo.b, 2, 2)]%Q Demo.c 3 3).
  - lia.
  - reflexivity.
Defined.

Lemma X12_failed_flush_drops_the_batch_witness :
  fst (add_request Demo.a 100 101
         {| model := Samples.broken; batch_size := 3; max_wait_time := 10;
            batch_queue := []; last_batch_time := 0 |}) = inl ModelError.
Proof.
  apply (@X12_failed_flush_drops_the_batch Demo.runtime
           {| model := Samples.broken; batch_size := 3; max_wait_time := 10;
              batch_queue := []; last_batch_time := 0 |}
           Demo.a 100 101 ModelError).
  - right. discriminate.
  - reflexivity.
Defined.

Lemma X13_nonpositive_batch_size_witness :
  new_calls {| model := Demo.model; batch_size := 0; max_wait_time := 10;
               batch_queue := []; last_batch_time := 0 |}
    (snd (add_request Demo.a 1 2
            {| model := Demo.model; batch_size := 0; max_wait_time := 10;
               batch_queue := []; last_batch_time := 0 |})) <> [].
Proof.
  apply (@X13_nonpositive_batch_size Demo.runtime
           {| model := Demo.model; batch_size := 0; max_wait_time := 10;
              batch_queue := []; last_batch_time := 0 |} Demo.a 1 2).
  simpl. lia.
Defined.
End BatchProcessorMoreExamples.

(** ** Lists, [min] and [index] *)

(** Unfolds the sequencing of a method body that may raise an [error]. *)
Ltac step_x :=
  cbv [mbind mret X_bind X_ret Builtins.xgets Builtins.xmodify
       Builtins.xlift].

Section BuiltinsFacts.

Lemma position_in_range (n : nat) (i : Z) :
  0 <= i < Z.of_nat n -> position n i = Some (Z.to_nat i).
Proof.
  intros [Hlo Hhi]. unfold position.
  apply Z.leb_le in Hlo as ->. by apply Z.ltb_lt in Hhi as ->.
Qed.

Lemma position_out_of_range (n : nat) (i : Z) :
  i < - Z.of_nat n \/ Z.of_nat n <= i -> position n i = None.
Proof.
  intros Hout. unfold position.
  destruct (0 <=? i) eqn:E1, (i <? Z.of_nat n) eqn:E2,
           (- Z.of_nat n <=? i) eqn:E3, (i <? 0) eqn:E4;
    simpl; try reflexivity; zify_bool; lia.
Qed.

Lemma list_getitem_in_range {A} (l : list A) (i : Z) :
  0 <= i < len l ->
  exists x, list_getitem l i = inr x /\ l !! Z.to_nat i = Some x.
Proof.
  intros Hi. unfold list_getitem. rewrite position_in_range by exact Hi.
  destruct (lookup_lt_is_Some_2 l (Z.to_nat i)) as [x Hx];
    [unfold len in Hi; lia|].
  exists x. by rewrite Hx.
Qed.

Lemma list_setitem_in_range {A} (l : list A) (i : Z) (x : A) :
  0 <= i < len l -> list_setitem l i x = inr (<[Z.to_nat i := x]> l).
Proof.
  intros Hi. unfold list_setitem. by rewrite position_in_range by exact Hi.
Qed.

Lemma foldl_min_le (l : list Z) : forall x,
  foldl Z.min x l <= x /\
  (forall y, y ∈ l -> foldl Z.min x l <= y) /\
  (foldl Z.min x l = x \/ foldl Z.min x l ∈ l).
Proof.
  induction l as [|z l IH]; intros x; simpl.
  - split; [lia|]. split; [|by left]. intros y Hy. by apply elem_of_nil in Hy.
  - destruct (IH (Z.min x z)) as (Hle & Hall & Hin).
    split; [lia|]. split.
    + intros y [-> | Hy]%elem_of_cons; [lia|by apply Hall].
    + destruct Hin as [Heq | Hin].
      * destruct (Z.min_spec x z) as [[_ Hm] | [_ Hm]].
        -- left. by rewrite Heq.
        -- right. rewrite Heq, Hm. by left.
      * right. by right.
Qed.

(** [min] of a list that is not empty is its least element. *)
Lemma list_min_spec (l : list Z) :
  l <> [] ->
  exists m, list_min l = inr m /\ m ∈ l /\ forall y, y ∈ l -> m <= y.
Proof.
  destruct l as [|x l]; [congruence|]. intros _. simpl.
  destruct (foldl_min_le l x) as (Hle & Hall & Hin).
  eexists. split; [reflexivity|]. split.
  - destruct Hin as [-> | Hin]; [by left|by right].
  - intros y [-> | Hy]%elem_of_cons; [exact Hle|by apply Hall].
Qed.

(** [index] of an element of the list is its first position. *)
Lemma list_index_spec (l : list Z) (x : Z) :
  x ∈ l ->
  exists j, list_index l x = inr j /\ 0 <= j < len l /\
    l !! Z.to_nat j = Some x /\
    forall k, (k < Z.to_nat j)%nat -> l !! k <> Some x.
Proof.
  induction l as [|y l IH]; intros Hin; [by apply elem_of_nil in Hin|].
  simpl. destruct (Z.eqb_spec y x) as [->|Hne].
  - exists 0. split; [reflexivity|]. unfold len. simpl.
    split; [lia|]. split; [reflexivity|]. intros k Hk. lia.
  - apply elem_of_cons in Hin as [Heq|Hin]; [congruence|].
    destruct (IH Hin) as (j & -> & Hj & Hl & Hfirst).
    exists (j + 1). split; [reflexivity|]. unfold len in *. cbn [length].
    split; [lia|].
    replace (Z.to_nat (j + 1)) with (S (Z.to_nat j)) by lia.
    split; [exact Hl|].
    intros [|k] Hk; simpl; [congruence|]. apply Hfirst. lia.
Qed.

Lemma total_insert (l : list Z) (j : nat) (c : Z) :
  l !! j = Some c ->
  LoadBalancer.total (<[j := c + 1]> l) = LoadBalancer.total l + 1.
Proof.
  revert j. induction l as [|x l IH]; intros [|j] Hj; simpl in *;
    try discriminate.
  - injection Hj as ->. lia.
  - rewrite (IH j Hj). lia.
Qed.

Lemma insert_replicate_boundary (j m : nat) (c : Z) :
  <[j := c + 1]> (replicate j (c + 1) ++ replicate (S m) c)
  = replicate (S j) (c + 1) ++ replicate m c.
Proof.
  induction j as [|j IH]; [reflexivity|].
  cbn [replicate app]. cbn [replicate app] in IH.
  change (<[S j := c + 1]> ((c + 1) :: ?t))
    with ((c + 1) :: <[j := c + 1]> t).
  by rewrite IH.
Qed.

Lemma total_replicate (n : nat) (c : Z) :
  LoadBalancer.total (replicate n c) = Z.of_nat n * c.
Proof. induction n as [|n IH]; simpl; [lia|]. rewrite IH. lia. Qed.
End BuiltinsFacts.

(** ** LoadBalancer *)

Section LoadBalancerFacts.
Context `{Runtime}.
Import LoadBalancer.

Lemma init_well_formed (l : list Model.t) :
  l <> [] -> well_formed l (__init__ l).
Proof.
  intros Hl. unfold well_formed, __init__, len. simpl.
  split; [reflexivity|]. split.
  - destruct l; [congruence|]. simpl. lia.
  - split; [apply length_replicate|].
    by apply Forall_replicate.
Qed.

(** [round_robin] on a well-formed balancer: the instance at the index is
    returned, the index moves on cyclically, and the count at the new
    index is increased. *)
Lemma round_robin_step (l : list Model.t) (s : t) :
  well_formed l s ->
  let j := (current_index s + 1) mod len l in
  exists instance c,
    l !! Z.to_nat (current_index s) = Some instance /\
    request_counts s !! Z.to_nat j = Some c /\
    get_instance "round_robin" s
    = (inr instance,
       {| instances := l; current_index := j;
          request_counts := <[Z.to_nat j := c + 1]> (request_counts s) |}).
Proof.
  intros (Hinst & Hidx & Hlen & Hpos) j.
  assert (Hn : 0 < len l) by lia.
  assert (Hj : 0 <= j < len l) by (apply Z.mod_pos_bound; lia).
  destruct (list_getitem_in_range l (current_index s) Hidx)
    as (instance & Hget & Hlook).
  assert (Hj' : 0 <= j < len (request_counts s))
    by (unfold len in *; lia).
  destruct (list_getitem_in_range (request_counts s) j Hj')
    as (c & Hgetc & Hlookc).
  exists instance, c. split; [exact Hlook|]. split; [exact Hlookc|].
  unfold get_instance, incr_count. cbn [String.eqb Ascii.eqb Bool.eqb].
  step_x. rewrite Hinst, Hget. unfold mod_.
  assert ((len l =? 0) = false) as -> by (apply Z.eqb_neq; lia).
  cbn [set_current_index current_index request_counts instances].
  fold j. rewrite Hgetc. rewrite (list_setitem_in_range _ _ _ Hj').
  unfold set_request_counts, set_current_index. simpl. by rewrite Hinst.
Qed.

(** [least_connections] on a well-formed balancer: the first position
    that holds the least count is chosen, its count is increased and its
    instance returned; the index does not move. *)
Lemma least_connections_step (l : list Model.t) (s : t) :
  well_formed l s ->
  exists instance least j,
    list_min (request_counts s) = inr least /\
    list_index (request_counts s) least = inr j /\
    0 <= j < len l /\
    request_counts s !! Z.to_nat j = Some least /\
    (forall y, y ∈ request_counts s -> least <= y) /\
    (forall k, (k < Z.to_nat j)%nat -> request_counts s !! k <> Some least) /\
    l !! Z.to_nat j = Some instance /\
    get_instance "least_connections" s
    = (inr instance,
       {| instances := l; current_index := current_index s;
          request_counts := <[Z.to_nat j := least + 1]> (request_counts s) |}).
Proof.
  intros (Hinst & Hidx & Hlen & Hpos).
  assert (Hne : request_counts s <> []).
  { intros Hnil. rewrite Hnil in Hlen. unfold len in Hidx.
    simpl in Hlen. lia. }
  destruct (list_min_spec _ Hne) as (least & Hmin & Hin & Hleast).
  destruct (list_index_spec _ _ Hin) as (j & Hindex & Hj & Hlook & Hfirst).
  assert (Hj' : 0 <= j < len l) by (unfold len in *; lia).
  destruct (list_getitem_in_range l j Hj') as (instance & Hget & Hlooki).
  exists instance, least, j.
  do 7 (split; [assumption|]).
  unfold get_instance, incr_count. cbn [String.eqb Ascii.eqb Bool.eqb].
  step_x. rewrite Hmin, Hindex.
  assert (Hgetc : list_getitem (request_counts s) j = inr least).
  { unfold list_getitem. rewrite position_in_range by (unfold len in Hj; lia).
    by rewrite Hlook. }
  rewrite Hgetc, (list_setitem_in_range _ _ _ Hj).
  cbn [set_request_counts instances]. rewrite Hinst, Hget.
  unfold set_request_counts. simpl. by rewrite Hinst.
Qed.

Lemma unknown_strategy (strategy : string) (s : t) :
  known strategy = false -> get_instance strategy s = (inl ValueError, s).
Proof.
  unfold known, get_instance. intros [-> ->]%orb_false_iff. reflexivity.
Qed.

(** One call keeps the balancer well formed; a known strategy returns one
    of the instances and adds one to the sum of the counts. *)
Lemma get_instance_well_formed (l : list Model.t) strategy (s : t) :
  well_formed l s ->
  well_formed l (snd (get_instance strategy s)) /\
  (if known strategy
   then (exists instance, fst (get_instance strategy s) = inr instance
                          /\ instance ∈ l)
        /\ total (request_counts (snd (get_instance strategy s)))
           = total (request_counts s) + 1
   else get_instance strategy s = (inl ValueError, s)).
Proof.
  intros Hwf. pose proof Hwf as (Hinst & Hidx & Hlen & Hpos).
  unfold known.
  destruct (String.eqb_spec strategy "round_robin") as [->|Hrr].
  - destruct (round_robin_step l s Hwf) as (instance & c & Hi & Hc & ->).
    cbn [orb fst snd]. split; [|split].
    + unfold well_formed. simpl. split; [reflexivity|].
      split; [apply Z.mod_pos_bound; lia|].
      split; [by rewrite length_insert|].
      apply Forall_insert; [exact Hpos|].
      pose proof (proj1 (Forall_forall _ _) Hpos c
                    (list_elem_of_lookup_2 _ _ _ Hc)). simpl in *. lia.
    + exists instance. split; [reflexivity|].
      by apply list_elem_of_lookup_2 in Hi.
    + simpl. by apply total_insert.
  - destruct (String.eqb_spec strategy "least_connections") as [->|Hlc].
    + destruct (least_connections_step l s Hwf)
        as (instance & least & j & _ & _ & Hj & Hc & _ & _ & Hi & ->).
      cbn [orb fst snd]. split; [|split].
      * unfold well_formed. simpl. split; [reflexivity|].
        split; [exact Hidx|].
        split; [by rewrite length_insert|].
        apply Forall_insert; [exact Hpos|].
        pose proof (proj1 (Forall_forall _ _) Hpos least
                      (list_elem_of_lookup_2 _ _ _ Hc)). simpl in *. lia.
      * exists instance. split; [reflexivity|].
        by apply list_elem_of_lookup_2 in Hi.
      * simpl. by apply total_insert.
    + cbn [orb]. rewrite unknown_strategy.
      * split; [exact Hwf|reflexivity].
      * unfold known. apply orb_false_iff.
        split; by apply String.eqb_neq.
Qed.

Lemma route_cons strategy strategies (s : t) :
  route (strategy :: strategies) s
  = (fst (get_instance strategy s)
       :: fst (route strategies (snd (get_instance strategy s))),
     snd (route strategies (snd (get_instance strategy s)))).
Proof.
  simpl. destruct (get_instance strategy s) as [r s']. cbn [fst snd].
  by destruct (route strategies s') as [rs s''].
Qed.

(** Along any sequence of calls the balancer stays well formed, each
    outcome is an instance or the [ValueError] of an unknown strategy,
    and the counts add up to the calls served. *)
Lemma route_well_formed (l : list Model.t) strategies : forall s : t,
  well_formed l s ->
  well_formed l (snd (route strategies s)) /\
  Forall2 (fun strategy r =>
             if known strategy
             then exists instance, r = inr instance /\ instance ∈ l
             else r = inl ValueError)
    strategies (fst (route strategies s)) /\
  total (request_counts (snd (route strategies s)))
  = total (request_counts s) + len (filter (fun st => known st = true)
                                      strategies).
Proof.
  induction strategies as [|st sts IH]; intros s Hwf.
  - simpl. split; [exact Hwf|]. split; [constructor|]. unfold len. simpl. lia.
  - rewrite route_cons. cbn [fst snd].
    destruct (get_instance_well_formed l st s Hwf) as [Hwf' Hout].
    destruct (IH _ Hwf') as (Hwf'' & Hall & Htot).
    split; [exact Hwf''|]. rewrite Htot, filter_cons.
    destruct (known st) eqn:Hk.
    + destruct Hout as [Hinst ->]. split.
      * constructor; [by rewrite Hk|exact Hall].
      * rewrite decide_True by reflexivity. unfold len. cbn [length]. lia.
    + rewrite Hout. split.
      * constructor; [by rewrite Hk|]. by rewrite Hout in Hall.
      * rewrite decide_False by discriminate. cbn [snd].
        rewrite Hout in Htot. cbn [snd] in Htot. lia.
Qed.

(** Calls with an unknown strategy leave no trace in the state. *)
Lemma route_skips_unknown strategies : forall s : t,
  snd (route strategies s)
  = snd (route (filter (fun st => known st = true) strategies) s).
Proof.
  induction strategies as [|st sts IH]; intros s; [reflexivity|].
  rewrite filter_cons, route_cons. cbn [snd].
  destruct (known st) eqn:Hk.
  - rewrite decide_True by reflexivity. rewrite route_cons. cbn [snd].
    apply IH.
  - rewrite decide_False by discriminate.
    rewrite (unknown_strategy st s Hk). cbn [snd]. apply IH.
Qed.

(** X14: a balancer built over at least one instance never fails on an
    index.  After any sequence of [get_instance] calls, with known or
    unknown strategies, the index is within the instances, there is one
    count per instance, and each call with a known strategy returned one
    of the instances while each other call raised [ValueError].  A call
    with an unknown strategy changes nothing, in any state, so that the
    balancer ends in the state that the calls with a known strategy
    alone lead to. *)
Theorem X14_balancer_stays_well_formed (l : list Model.t) strategies :
  l <> [] ->
  well_formed l (snd (route strategies (__init__ l))) /\
  Forall2 (fun strategy r =>
             if known strategy
             then exists instance, r = inr instance /\ instance ∈ l
             else r = inl ValueError)
    strategies (fst (route strategies (__init__ l))) /\
  (forall strategy (s : t),
     known strategy = false ->
     get_instance strategy s = (inl ValueError, s)) /\
  snd (route strategies (__init__ l))
  = snd (route (filter (fun st => known st = true) strategies)
           (__init__ l)).
Proof.
  intros Hl.
  destruct (route_well_formed l strategies (__init__ l)
              (init_well_formed l Hl)) as (Hwf & Hall & _).
  split; [exact Hwf|]. split; [exact Hall|].
  split; [apply unknown_strategy|apply route_skips_unknown].
Qed.

(** X15: the request counts add up to the number of calls served: after
    any sequence of [get_instance] calls on a balancer built over at
    least one instance, their sum is the number of calls made with a
    known strategy. *)
Theorem X15_counts_add_up_to_calls_served (l : list Model.t) strategies :
  l <> [] ->
  total (request_counts (snd (route strategies (__init__ l))))
  = len (filter (fun st => known st = true) strategies).
Proof.
  intros Hl.
  destruct (route_well_formed l strategies (__init__ l)
              (init_well_formed l Hl)) as (_ & _ & ->).
  unfold __init__. cbn [request_counts]. rewrite total_replicate. lia.
Qed.

(** X16: [round_robin] returns the instance at the current index but
    adds the request to the count of the next index: on a balancer over
    two or more instances the count of the instance returned does not
    change. *)
Theorem X16_round_robin_counts_the_next_instance (l : list Model.t) (s : t) :
  well_formed l s ->
  let i := current_index s in
  let j := (i + 1) mod len l in
  exists instance c,
    l !! Z.to_nat i = Some instance /\
    fst (get_instance "round_robin" s) = inr instance /\
    current_index (snd (get_instance "round_robin" s)) = j /\
    request_counts s !! Z.to_nat j = Some c /\
    request_counts (snd (get_instance "round_robin" s))
    = <[Z.to_nat j := c + 1]> (request_counts s) /\
    (2 <= len l ->
       j <> i /\
       request_counts (snd (get_instance "round_robin" s)) !! Z.to_nat i
       = request_counts s !! Z.to_nat i).
Proof.
  intros Hwf i j.
  destruct (round_robin_step l s Hwf) as (instance & c & Hi & Hc & Hstep).
  fold i j in Hi, Hc, Hstep. destruct Hwf as (_ & Hidx & _ & _).
  fold i in Hidx.
  exists instance, c. rewrite Hstep. cbn [fst snd current_index request_counts].
  do 5 (split; [done|]).
  intros Hn.
  assert (Hji : j <> i).
  { subst j. destruct (Z.eq_dec (i + 1) (len l)) as [Heq | Hne].
    - rewrite Heq, Z.mod_same by lia. lia.
    - rewrite Z.mod_small by lia. lia. }
  split; [exact Hji|].
  apply list_lookup_insert_ne.
  assert (0 <= j < len l) by (apply Z.mod_pos_bound; lia). lia.
Qed.

(** Round robin from any well-formed state: the instances come out in
    list order, cyclically, starting at the index. *)
Lemma round_robin_from (l : list Model.t) (k : nat) : forall s : t,
  well_formed l s ->
  fst (route (replicate k "round_robin"%string) s)
  = map (fun i => list_getitem l ((current_index s + Z.of_nat i) mod len l))
      (seq 0 k) /\
  current_index (snd (route (replicate k "round_robin"%string) s))
  = (current_index s + Z.of_nat k) mod len l.
Proof.
  induction k as [|k IH]; intros s Hwf.
  - simpl. destruct Hwf as (_ & Hidx & _). split; [reflexivity|].
    rewrite Z.add_0_r, Z.mod_small; lia.
  - cbn [replicate]. rewrite route_cons. cbn [fst snd].
    destruct (get_instance_well_formed l "round_robin" s Hwf) as [Hwf' _].
    destruct (round_robin_step l s Hwf) as (instance & c & Hi & _ & Hstep).
    destruct (IH _ Hwf') as [Hout Hidx']. rewrite Hout, Hidx'.
    rewrite Hstep. cbn [fst snd current_index seq map].
    pose proof Hwf as (_ & Hidx & _).
    assert (Hn : 0 < len l) by lia.
    split.
    + f_equal.
      * rewrite Z.add_0_r, Z.mod_small by lia. unfold list_getitem.
        rewrite position_in_range by (unfold len in Hidx; lia).
        by rewrite Hi.
      * rewrite <- seq_shift, map_map. apply map_ext. intros i.
        f_equal. rewrite Zplus_mod_idemp_l. f_equal. lia.
    + rewrite Zplus_mod_idemp_l. f_equal. lia.
Qed.

(** X17: with [round_robin] only, a fresh balancer over at least one
    instance hands out the instances in list order, over and over: the
    call number [i] (from 0) returns the instance at position [i mod n],
    and after [k] calls the index is [k mod n]. *)
Theorem X17_round_robin_cycles_in_order (l : list Model.t) (k : nat) :
  l <> [] ->
  fst (route (replicate k "round_robin"%string) (__init__ l))
  = map (fun i => list_getitem l (Z.of_nat i mod len l)) (seq 0 k) /\
  Forall (fun r => exists instance, r = inr instance /\ instance ∈ l)
    (fst (route (replicate k "round_robin"%string) (__init__ l))) /\
  current_index (snd (route (replicate k "round_robin"%string) (__init__ l)))
  = Z.of_nat k mod len l.
Proof.
  intros Hl.
  destruct (round_robin_from l k (__init__ l) (init_well_formed l Hl))
    as [Hout Hidx].
  split; [exact Hout|]. split; [|exact Hidx].
  rewrite Hout. apply Forall_forall. intros r Hr.
  apply list_elem_of_In, in_map_iff in Hr as (i & <- & _).
  cbn [__init__ current_index]. rewrite Z.add_0_l.
  assert (Hn : 0 < len l) by (destruct l; [congruence|unfold len; simpl; lia]).
  destruct (list_getitem_in_range l (Z.of_nat i mod len l))
    as (instance & -> & Hlook); [apply Z.mod_pos_bound; lia|].
  exists instance. split; [reflexivity|].
  by apply list_elem_of_lookup_2 in Hlook.
Qed.

(** The counts of a balancer that has only used [least_connections]:
    the first [j] instances have served one request more than the
    others. *)
Lemma least_connections_from (l : list Model.t) (k : nat) :
  forall (s : t) (j : nat) (c : Z),
  well_formed l s ->
  (j < length l)%nat ->
  request_counts s = replicate j (c + 1) ++ replicate (length l - j) c ->
  let n := length l in
  fst (route (replicate k "least_connections"%string) s)
  = map (fun i => list_getitem l (Z.of_nat ((j + i) mod n))) (seq 0 k) /\
  request_counts (snd (route (replicate k "least_connections"%string) s))
  = replicate ((j + k) mod n) (c + Z.of_nat ((j + k) / n) + 1)
    ++ replicate (n - (j + k) mod n) (c + Z.of_nat ((j + k) / n)) /\
  current_index (snd (route (replicate k "least_connections"%string) s))
  = current_index s.
Proof.
  induction k as [|k IH]; intros s j c Hwf Hj Hcounts n.
  - simpl. rewrite Nat.add_0_r, Nat.mod_small, Nat.div_small by exact Hj.
    rewrite Z.add_0_r. by rewrite Hcounts.
  - cbn [replicate]. rewrite route_cons. cbn [fst snd].
    destruct (get_instance_well_formed l "least_connections" s Hwf)
      as [Hwf' _].
    destruct (least_connections_step l s Hwf)
      as (instance & least & j' & _ & _ & Hj' & Hlook & Hleast & Hfirst
          & Hi & Hstep).
    (* the least count is [c], first met at position [j] *)
    assert (Hcj : request_counts s !! j = Some c).
    { rewrite Hcounts, lookup_app_r by (rewrite length_replicate; lia).
      rewrite length_replicate, Nat.sub_diag.
      apply lookup_replicate_2. lia. }
    assert (Hbefore : forall i, (i < j)%nat ->
                        request_counts s !! i = Some (c + 1)).
    { intros i Hi'. rewrite Hcounts, lookup_app_l
        by (rewrite length_replicate; lia).
      by apply lookup_replicate_2. }
    assert (Hlc : least = c).
    { assert (least <= c)
        by (apply Hleast; by apply list_elem_of_lookup_2 in Hcj).
      apply list_elem_of_lookup_2 in Hlook. rewrite Hcounts in Hlook.
      apply elem_of_app in Hlook as [[-> _]%elem_of_replicate
                                    | [-> _]%elem_of_replicate]; lia. }
    subst least.
    assert (Hjj : Z.to_nat j' = j).
    { destruct (Nat.lt_trichotomy (Z.to_nat j') j) as [Hlt | [Heq | Hgt]].
      - rewrite (Hbefore _ Hlt) in Hlook. injection Hlook. lia.
      - exact Heq.
      - exfalso. exact (Hfirst j Hgt Hcj). }
    rewrite Hjj in *.
    assert (Hnew : <[j := c + 1]> (request_counts s)
                   = replicate (S j) (c + 1)
                     ++ replicate (length l - S j) c).
    { rewrite Hcounts.
      replace (length l - j)%nat with (S (length l - S j)) by lia.
      apply insert_replicate_boundary. }
    rewrite Hstep. cbn [fst snd].
    destruct (Nat.eq_dec (S j) (length l)) as [Hwrap | Hnowrap].
    + (* the round is complete: every instance is at [c + 1] *)
      destruct (IH (snd (get_instance "least_connections" s)) 0%nat (c + 1))
        as (Hout & Hcnt & Hidx).
      * exact Hwf'.
      * lia.
      * rewrite Hstep. cbn [snd request_counts]. rewrite Hnew, Hwrap.
        rewrite Nat.sub_diag, Nat.sub_0_r. simpl. by rewrite app_nil_r.
      * rewrite Hstep in Hout, Hcnt, Hidx. cbn [snd] in Hout, Hcnt, Hidx.
        rewrite Hout, Hcnt, Hidx. cbn [current_index seq map]. fold n.
        assert (Hn : n = S j) by (subst n; lia).
        split; [|split; [|reflexivity]].
        -- f_equal.
           ++ rewrite Nat.add_0_r, Nat.mod_small by lia.
              unfold list_getitem.
              rewrite position_in_range by lia.
              rewrite Nat2Z.id. by rewrite Hi.
           ++ rewrite <- seq_shift, map_map. apply map_ext. intros i.
              do 2 f_equal. cbn [Nat.add].
              replace (j + S i)%nat with (i + 1 * n)%nat by lia.
              by rewrite Nat.Div0.mod_add.
        -- replace (j + S k)%nat with (k + 1 * n)%nat by lia.
           rewrite Nat.Div0.mod_add, Nat.div_add by lia.
           cbn [Nat.add]. do 2 f_equal; lia.
    + destruct (IH (snd (get_instance "least_connections" s)) (S j) c)
        as (Hout & Hcnt & Hidx).
      * exact Hwf'.
      * lia.
      * rewrite Hstep. cbn [snd request_counts]. exact Hnew.
      * rewrite Hstep in Hout, Hcnt, Hidx. cbn [snd] in Hout, Hcnt, Hidx.
        rewrite Hout, Hcnt, Hidx. cbn [current_index seq map]. fold n.
        split; [|split; [|reflexivity]].
        -- f_equal.
           ++ rewrite Nat.add_0_r, Nat.mod_small by lia.
              unfold list_getitem.
              rewrite position_in_range by lia.
              rewrite Nat2Z.id. by rewrite Hi.
           ++ rewrite <- seq_shift, map_map. apply map_ext. intros i.
              do 3 f_equal. lia.
        -- by replace (S j + k)%nat with (j + S k)%nat by lia.
Qed.

(** X18: with [least_connections] only, a fresh balancer over [n >= 1]
    instances spreads the requests evenly: the call number [i] (from 0)
    returns the instance at position [i mod n], and after [k] calls the
    first [k mod n] counts are [k / n + 1] and the others [k / n], so
    that no two counts differ by more than one.  The index does not
    move. *)
Theorem X18_least_connections_spreads_evenly (l : list Model.t) (k : nat) :
  l <> [] ->
  let n := length l in
  let s := snd (route (replicate k "least_connections"%string) (__init__ l)) in
  fst (route (replicate k "least_connections"%string) (__init__ l))
  = map (fun i => list_getitem l (Z.of_nat (i mod n))) (seq 0 k) /\
  request_counts s
  = replicate (k mod n) (Z.of_nat (k / n) + 1)
    ++ replicate (n - k mod n) (Z.of_nat (k / n)) /\
  Forall (fun c => Z.of_nat (k / n) <= c <= Z.of_nat (k / n) + 1)
    (request_counts s) /\
  current_index s = 0.
Proof.
  intros Hl n s.
  assert (Hn : (0 < length l)%nat) by (destruct l; [congruence|simpl; lia]).
  destruct (least_connections_from l k (__init__ l) 0%nat 0)
    as (Hout & Hcnt & Hidx).
  - by apply init_well_formed.
  - exact Hn.
  - cbn [__init__ request_counts replicate app]. by rewrite Nat.sub_0_r.
  - cbn zeta in Hout, Hcnt. fold n s in Hout, Hcnt, Hidx.
    cbn [Nat.add] in Hout, Hcnt. rewrite Z.add_0_l in Hcnt.
    split; [exact Hout|]. split; [exact Hcnt|]. split; [|exact Hidx].
    rewrite Hcnt. apply Forall_app. split; apply Forall_replicate; lia.
Qed.

(** X19: a balancer built over no instance serves nothing.  Every call
    raises, [IndexError] for [round_robin] and [ValueError] for every
    other strategy, and the balancer stays as it was built. *)
Theorem X19_empty_balancer_always_raises strategies :
  snd (route strategies (__init__ [])) = __init__ [] /\
  Forall2 (fun strategy r =>
             r = if String.eqb strategy "round_robin"
                 then inl (Builtin IndexError) else inl ValueError)
    strategies (fst (route strategies (__init__ []))).
Proof.
  assert (Hstep : forall strategy,
             get_instance strategy (__init__ [])
             = (if String.eqb strategy "round_robin"
                then inl (Builtin IndexError) else inl ValueError,
                __init__ [])).
  { intros strategy. unfold get_instance.
    destruct (String.eqb strategy "round_robin"); [reflexivity|].
    destruct (String.eqb strategy "least_connections"); reflexivity. }
  induction strategies as [|st sts [IHs IHr]].
  - split; [reflexivity|constructor].
  - rewrite route_cons, Hstep. cbn [fst snd]. split; [exact IHs|].
    by constructor.
Qed.

Lemma predict_routes (f : Features) (strategy : string) (s : t) :
  predict f strategy s
  = (match fst (get_instance strategy s) with
     | inl e => inl e
     | inr instance => reply_of instance f
     end, snd (get_instance strategy s)).
Proof.
  unfold predict, reply_of. step_x.
  destruct (get_instance strategy s) as [[e|instance] s']; [reflexivity|].
  cbn [fst snd].
  destruct (builtin (Model.predict instance [f])) as [e|ps]; [reflexivity|].
  by destruct (builtin (index0 ps)) as [e|p].
Qed.

Lemma serve_cons strategy (f : Features) fs (s : t) :
  serve strategy (f :: fs) s
  = (fst (predict f strategy s)
       :: fst (serve strategy fs (snd (predict f strategy s))),
     snd (serve strategy fs (snd (predict f strategy s)))).
Proof.
  simpl. destruct (predict f strategy s) as [r s']. cbn [fst snd].
  by destruct (serve strategy fs s') as [rs s''].
Qed.

Lemma serve_round_robin_from (l : list Model.t) fs : forall s : t,
  well_formed l s ->
  fst (serve "round_robin" fs s)
  = imap (fun i f =>
            match list_getitem l ((current_index s + Z.of_nat i) mod len l)
            with
            | inl e => inl e
            | inr instance => reply_of instance f
            end) fs.
Proof.
  induction fs as [|f fs IH]; intros s Hwf; [reflexivity|].
  rewrite serve_cons, predict_routes. cbn [fst snd imap].
  destruct (get_instance_well_formed l "round_robin" s Hwf) as [Hwf' _].
  destruct (round_robin_step l s Hwf) as (instance & c & Hi & _ & Hstep).
  rewrite (IH _ Hwf'), Hstep. cbn [fst snd current_index].
  pose proof Hwf as (_ & Hidx & _).
  f_equal.
  - rewrite Z.add_0_r, Z.mod_small by lia. unfold list_getitem.
    rewrite position_in_range by (unfold len in Hidx; lia).
    by rewrite Hi.
  - apply imap_ext. intros i g _. cbn [compose].
    rewrite Zplus_mod_idemp_l.
    by replace (current_index s + 1 + Z.of_nat i)
      with (current_index s + Z.of_nat (S i)) by lia.
Qed.

(** X20: [predict] with [round_robin] on a fresh balancer over at least
    one instance answers the request number [i] (from 0) with the
    prediction of the instance at position [i mod n]: the first element
    of what its [predict] returns on the one-row frame of the request, or
    the exception it raises; a request whose instance raises still takes
    its turn. *)
Theorem X20_requests_are_answered_in_turn (l : list Model.t) fs :
  l <> [] ->
  fst (serve "round_robin" fs (__init__ l))
  = imap (fun i f =>
            match list_getitem l (Z.of_nat i mod len l) with
            | inl e => inl e
            | inr instance => reply_of instance f
            end) fs /\
  current_index (snd (serve "round_robin" fs (__init__ l)))
  = len fs mod len l.
Proof.
  intros Hl. split.
  - by rewrite (serve_round_robin_from l fs _ (init_well_formed l Hl)).
  - assert (Hgen : forall s, well_formed l s ->
               current_index (snd (serve "round_robin" fs s))
               = (current_index s + len fs) mod len l).
    { induction fs as [|f fs IH]; intros s Hwf.
      - destruct Hwf as (_ & Hidx & _). unfold len at 1. simpl.
        rewrite Z.add_0_r, Z.mod_small; lia.
      - rewrite serve_cons, predict_routes. cbn [fst snd].
        destruct (get_instance_well_formed l "round_robin" s Hwf)
          as [Hwf' _].
        destruct (round_robin_step l s Hwf) as (? & ? & _ & _ & Hstep).
        rewrite (IH _ Hwf'), Hstep. cbn [snd current_index].
        rewrite Zplus_mod_idemp_l. f_equal. unfold len. cbn [length]. lia. }
    by rewrite (Hgen _ (init_well_formed l Hl)).
Qed.
End LoadBalancerFacts.

Section LoadBalancerExamples.
Import LoadBalancer.

Lemma X14_balancer_stays_well_formed_witness :
  well_formed [Samples.model_of 0; Samples.model_of 1; Samples.model_of 2]
    (snd (route ["round_robin"; "random"; "least_connections"]%string
            Samples.balancer)).
Proof.
  apply (@X14_balancer_stays_well_formed Demo.runtime
           [Samples.model_of 0; Samples.model_of 1; Samples.model_of 2]
           ["round_robin"; "random"; "least_connections"]%string).
  discriminate.
Defined.

Lemma X15_counts_add_up_to_calls_served_witness :
  total (request_counts
           (snd (route ["round_robin"; "random"; "least_connections"]%string
                   Samples.balancer)))
  = len (filter (fun st => known st = true)
           ["round_robin"; "random"; "least_connections"]%string).
Proof.
  apply (@X15_counts_add_up_to_calls_served Demo.runtime
           [Samples.model_of 0; Samples.model_of 1; Samples.model_of 2]
           ["round_robin"; "random"; "least_connections"]%string).
  discriminate.
Defined.

Lemma X16_round_robin_counts_the_next_instance_witness :
  exists instance c,
    [Samples.model_of 0; Samples.model_of 1; Samples.model_of 2]
      !! Z.to_nat (current_index Samples.balancer) = Some instance /\
    fst (get_instance "round_robin" Samples.balancer) = inr instance /\
    current_index (snd (get_instance "round_robin" Samples.balancer))
    = (current_index Samples.balancer + 1)
        mod len [Samples.model_of 0; Samples.model_of 1; Samples.model_of 2]
    /\
    request_counts Samples.balancer
      !! Z.to_nat ((current_index Samples.balancer + 1)
                     mod len [Samples.model_of 0; Samples.model_of 1;
                              Samples.model_of 2]) = Some c /\
    request_counts (snd (get_instance "round_robin" Samples.balancer))
    = <[Z.to_nat ((current_index Samples.balancer + 1)
                    mod len [Samples.model_of 0; Samples.model_of 1;
                             Samples.model_of 2]) := c + 1]>
        (request_counts Samples.balancer) /\
    (2 <= len [Samples.model_of 0; Samples.model_of 1; Samples.model_of 2] ->
       (current_index Samples.balancer + 1)
         mod len [Samples.model_of 0; Samples.model_of 1; Samples.model_of 2]
       <> current_index Samples.balancer /\
       request_counts (snd (get_instance "round_robin" Samples.balancer))
         !! Z.to_nat (current_index Samples.balancer)
       = request_counts Samples.balancer
           !! Z.to_nat (current_index Samples.balancer)).
Proof.
  apply (@X16_round_robin_counts_the_next_instance Demo.runtime
           [Samples.model_of 0; Samples.model_of 1; Samples.model_of 2]
           Samples.balancer).
  apply init_well_formed. discriminate.
Defined.

Lemma X17_round_robin_cycles_in_order_witness :
  fst (route (replicate 4 "round_robin"%string) Samples.balancer)
  = map (fun i => list_getitem
                    [Samples.model_of 0; Samples.model_of 1;
                     Samples.model_of 2]
                    (Z.of_nat i
                       mod len [Samples.model_of 0; Samples.model_of 1;
                                Samples.model_of 2])) (seq 0 4).
Proof.
  apply (@X17_round_robin_cycles_in_order Demo.runtime
           [Samples.model_of 0; Samples.model_of 1; Samples.model_of 2] 4).
  discriminate.
Defined.

Lemma X18_least_connections_spreads_evenly_witness :
  current_index
    (snd (route (replicate 4 "least_connections"%string) Samples.balancer))
  = 0.
Proof.
  apply (@X18_least_connections_spreads_evenly Demo.runtime
           [Samples.model_of 0; Samples.model_of 1; Samples.model_of 2] 4).
  discriminate.
Defined.

Lemma X20_requests_are_answered_in_turn_witness :
  current_index
    (snd (serve "round_robin" [Demo.a; Demo.b; Demo.c; Demo.a]
            Samples.balancer))
  = len [Demo.a; Demo.b; Demo.c; Demo.a]
      mod len [Samples.model_of 0; Samples.model_of 1; Samples.model_of 2].
Proof.
  apply (@X20_requests_are_answered_in_turn Demo.runtime
           [Samples.model_of 0; Samples.model_of 1; Samples.model_of 2]
           [Demo.a; Demo.b; Demo.c; Demo.a]).
  discriminate.
Defined.
End LoadBalancerExamples.

(** ** Splitting a frame into chunks *)

Section ChunkFacts.
Context {A : Type}.
Implicit Types (l : list A) (c m k : nat).

(** A slice between two bounds that are not negative. *)
Lemma slice_nonneg (a b : Z) l :
  0 <= a <= b ->
  slice a b l = take (Z.to_nat (b - a)) (drop (Z.to_nat a) l).
Proof.
  intros [Ha Hb]. unfold slice, bound.
  assert ((a <? 0) = false) as -> by (apply Z.ltb_ge; lia).
  assert ((b <? 0) = false) as -> by (apply Z.ltb_ge; lia).
  unfold len. destruct (Z.le_gt_cases a (Z.of_nat (length l))) as [Hin | Hout].
  - rewrite (Z.min_l a) by lia.
    destruct (Z.le_gt_cases b (Z.of_nat (length l))) as [Hbin | Hbout].
    + by rewrite (Z.min_l b) by lia.
    + rewrite (Z.min_r b) by lia.
      rewrite !take_ge; [reflexivity| |]; rewrite length_drop; lia.
  - rewrite (Z.min_r a) by lia. rewrite Nat2Z.id.
    rewrite !drop_ge by lia. by rewrite !take_nil.
Qed.

(** Consecutive pieces of [c] elements that cover a list give it back. *)
Lemma concat_pieces c m : forall l,
  (1 <= c)%nat -> (length l <= m * c)%nat ->
  concat (map (fun k => take c (drop (k * c) l)) (seq 0 m)) = l.
Proof.
  induction m as [|m IH]; intros l Hc Hlen.
  - destruct l; [reflexivity|simpl in Hlen; lia].
  - cbn [seq map concat]. rewrite <- seq_shift, map_map.
    rewrite (map_ext _ (fun k => take c (drop (k * c) (drop c l)))).
    + rewrite IH; [apply take_drop|exact Hc|]. rewrite length_drop. lia.
    + intros k. rewrite drop_drop. simpl. reflexivity.
Qed.

(** Every piece before the end of the list is not empty, and every piece
    but the last is full. *)
Lemma piece_length c k l :
  length (take c (drop (k * c) l)) = Nat.min c (length l - k * c).
Proof. by rewrite length_take, length_drop. Qed.

(** [range(0, n, step)] for a positive step. *)
Lemma range_positive_step (n step : Z) :
  0 <= n -> 1 <= step ->
  range 0 n step
  = inr (map (fun k => Z.of_nat k * step)
           (seq 0 (Z.to_nat ((n + step - 1) / step)))).
Proof.
  intros Hn Hstep. unfold range, range_len.
  assert ((step =? 0) = false) as -> by (apply Z.eqb_neq; lia).
  assert ((0 <? step) = true) as -> by (apply Z.ltb_lt; lia).
  rewrite Z.sub_0_r. rewrite Z.max_r
    by (apply Z.div_pos; lia).
  f_equal.
Qed.

(** The number of chunks of [n] rows cut for [w] workers. *)
Lemma chunk_count (n w : Z) :
  1 <= w <= n ->
  let cs := n / w in
  let m := (n + cs - 1) / cs in
  1 <= cs /\ w <= m < 2 * w /\ (m - 1) * cs < n <= m * cs.
Proof.
  intros [Hw Hn] cs m.
  assert (Hcs : 1 <= cs).
  { subst cs. apply Z.div_le_lower_bound; lia. }
  pose proof (Z.div_mod n w ltac:(lia)) as Hdm.
  pose proof (Z.mod_pos_bound n w ltac:(lia)) as Hr.
  fold cs in Hdm.
  pose proof (Z.div_mod (n + cs - 1) cs ltac:(lia)) as Hdm'.
  pose proof (Z.mod_pos_bound (n + cs - 1) cs ltac:(lia)) as Hr'.
  fold m in Hdm'.
  split; [exact Hcs|]. split; [|nia]. split; nia.
Qed.
End ChunkFacts.

Section SplitFacts.
Context `{Runtime}.

(** What [split] returns for a number of workers between 1 and the
    number of rows: pieces of [len data // n_workers] rows. *)
Lemma split_pieces {B : Type} (data : list B) (n_workers : Z) :
  1 <= n_workers <= len data ->
  let c := Z.to_nat (len data / n_workers) in
  let m := Z.to_nat ((len data + len data / n_workers - 1)
                       / (len data / n_workers)) in
  (1 <= c)%nat /\
  (Z.to_nat n_workers <= m < 2 * Z.to_nat n_workers)%nat /\
  ((m - 1) * c < length data <= m * c)%nat /\
  floordiv (len data) n_workers = inr (len data / n_workers) /\
  range 0 (len data) (len data / n_workers)
  = inr (map (fun k => Z.of_nat k * (len data / n_workers)) (seq 0 m)) /\
  forall k,
    slice (Z.of_nat k * (len data / n_workers))
      (Z.of_nat k * (len data / n_workers) + len data / n_workers) data
    = take c (drop (k * c) data).
Proof.
  intros Hw c m.
  destruct (chunk_count (len data) n_workers Hw) as (Hcs & Hm & Hcover).
  cbv zeta in Hm, Hcover.
  split; [subst c; lia|]. split; [subst m; lia|].
  split.
  { subst m c. unfold len in *.
    set (cs := Z.of_nat (length data) / n_workers) in *.
    set (mz := (Z.of_nat (length data) + cs - 1) / cs) in *.
    split; nia. }
  split.
  { unfold floordiv.
    by assert ((n_workers =? 0) = false) as -> by (apply Z.eqb_neq; lia). }
  split.
  { apply range_positive_step; [unfold len|]; lia. }
  intros k. rewrite slice_nonneg by nia. subst c.
  do 2 f_equal; nia.
Qed.

(** The chunks of [process_parallel], as pieces. *)
Lemma split_as_pieces (data : DataFrame) (n_workers : Z) :
  1 <= n_workers <= len data ->
  DistributedDataProcessing.split data n_workers
  = inr (map (fun k => take (Z.to_nat (len data / n_workers))
                         (drop (k * Z.to_nat (len data / n_workers)) data))
           (seq 0 (Z.to_nat ((len data + len data / n_workers - 1)
                               / (len data / n_workers))))).
Proof.
  intros Hw.
  destruct (split_pieces data n_workers Hw)
    as (_ & _ & _ & Hdiv & Hrange & Hslice).
  unfold DistributedDataProcessing.split. rewrite Hdiv, Hrange.
  f_equal. rewrite map_map. apply map_ext. intros k. apply Hslice.
Qed.

(** X21: for a number of workers between 1 and the number of rows,
    [process_parallel] cuts the frame into consecutive chunks that give
    the frame back when put end to end.  Each chunk has between 1 and
    [len(data) // n_workers] rows, each but the last has exactly that
    many, and there are at least [n_workers] chunks and fewer than twice
    as many: more chunks than workers when the rows do not divide
    evenly. *)
Theorem X21_chunks_cover_the_frame (data : DataFrame) (n_workers : Z) :
  1 <= n_workers <= len data ->
  exists chunks,
    DistributedDataProcessing.split data n_workers = inr chunks /\
    concat chunks = data /\
    Forall (fun chunk => 1 <= len chunk <= len data / n_workers) chunks /\
    (forall i chunk,
       chunks !! i = Some chunk -> (S i < length chunks)%nat ->
       len chunk = len data / n_workers) /\
    n_workers <= len chunks < 2 * n_workers /\
    (len data mod n_workers = 0 -> len chunks = n_workers).
Proof.
  intros Hw. eexists. split; [by apply split_as_pieces|].
  destruct (split_pieces data n_workers Hw)
    as (Hc & Hm & Hcover & _ & _ & _).
  cbv zeta in Hc, Hm, Hcover.
  set (c := Z.to_nat (len data / n_workers)) in *.
  set (m := Z.to_nat ((len data + len data / n_workers - 1)
                        / (len data / n_workers))) in *.
  assert (Hcz : len data / n_workers = Z.of_nat c) by (subst c; lia).
  split; [apply concat_pieces; lia|]. split; [|split; [|split]].
  - apply Forall_forall. intros chunk Hin.
    apply list_elem_of_In, in_map_iff in Hin as (k & <- & Hk).
    apply in_seq in Hk. rewrite Hcz. unfold len. rewrite piece_length. nia.
  - intros i chunk Hi Hlast. rewrite length_map, length_seq in Hlast.
    rewrite list_lookup_fmap in Hi.
    rewrite lookup_seq_lt in Hi by lia. simpl in Hi. injection Hi as <-.
    rewrite Hcz. unfold len. rewrite piece_length. nia.
  - unfold len. rewrite length_map, length_seq. lia.
  - intros Hdiv. apply Z.mod_divide in Hdiv; [|lia]. destruct Hdiv as [q Hq].
    assert (q = Z.of_nat c).
    { rewrite <- Hcz, Hq. by rewrite Z.div_mul by lia. }
    subst q. unfold len in *. rewrite length_map, length_seq. nia.
Qed.



(** X23: [process_parallel] returns only for a number of workers between
    1 and the number of rows.  With 0 workers it raises
    [ZeroDivisionError]; with a negative number of workers, or with more
    workers than rows (also on an empty frame), it raises [ValueError]. *)
Theorem X23_parallel_rejects_bad_worker_counts
  (row_sum : Features -> Value) (data : DataFrame) (n_workers : Z) :
  (n_workers = 0 ->
     DistributedDataProcessing.process_parallel row_sum data n_workers
     = inl (Builtin ZeroDivisionError)) /\
  (n_workers < 0 \/ len data < n_workers ->
     DistributedDataProcessing.process_parallel row_sum data n_workers
     = inl ValueError).
Proof.
  split.
  - intros ->. reflexivity.
  - intros Hbad.
    unfold DistributedDataProcessing.process_parallel,
      DistributedDataProcessing.split, floordiv.
    assert ((n_workers =? 0) = false) as ->.
    { apply Z.eqb_neq. unfold len in Hbad. lia. }
    assert (Hn : 0 <= len data) by (unfold len; lia).
    destruct (Z.eq_dec (len data / n_workers) 0) as [Hz | Hnz].
    + rewrite Hz. reflexivity.
    + assert (Hneg : n_workers < 0 /\ len data / n_workers < 0).
      { destruct Hbad as [Hw | Hw].
        - split; [exact Hw|].
          pose proof (Z.div_mod (len data) n_workers ltac:(lia)).
          pose proof (Z.mod_neg_bound (len data) n_workers ltac:(lia)).
          nia.
        - exfalso. apply Hnz. apply Z.div_small. lia. }
      destruct Hneg as [Hw Hcs].
      unfold range, range_len.
      assert ((len data / n_workers =? 0) = false) as ->
        by (by apply Z.eqb_neq).
      assert ((0 <? len data / n_workers) = false) as ->
        by (apply Z.ltb_ge; lia).
      unfold Pool.
      by assert ((n_workers <? 1) = true) as -> by (apply Z.ltb_lt; lia).
Qed.

(** X24: for a number of workers between 1 and the number of rows and a
    label series as long as the frame, [train_distributed] cuts both at
    the same places: the chunks of rows put end to end are [X], the
    chunks of labels are [y], and each chunk holds as many labels as
    rows, at least one. *)
Theorem X24_training_chunks_keep_rows_and_labels_together
  (X : DataFrame) (y : list Z) (n_workers : Z) :
  1 <= n_workers <= len X ->
  len y = len X ->
  exists chunks,
    DistributedTraining.split X y n_workers = inr chunks /\
    concat (map fst chunks) = X /\
    concat (map snd chunks) = y /\
    Forall (fun chunk => len (fst chunk) = len (snd chunk)
                         /\ 1 <= len (fst chunk)) chunks /\
    n_workers <= len chunks < 2 * n_workers.
Proof.
  intros Hw Hy.
  destruct (split_pieces X n_workers Hw)
    as (Hc & Hm & Hcover & Hdiv & Hrange & HsliceX).
  assert (Hw' : 1 <= n_workers <= len y) by lia.
  destruct (split_pieces y n_workers Hw') as (_ & _ & _ & _ & _ & Hslicey).
  cbv zeta in Hc, Hm, Hcover, HsliceX, Hslicey, Hrange.
  rewrite Hy in Hslicey.
  set (c := Z.to_nat (len X / n_workers)) in *.
  set (m := Z.to_nat ((len X + len X / n_workers - 1)
                        / (len X / n_workers))) in *.
  exists (map (fun k => (take c (drop (k * c) X), take c (drop (k * c) y)))
            (seq 0 m)).
  split.
  { unfold DistributedTraining.split. rewrite Hdiv, Hrange. f_equal.
    rewrite map_map. apply map_ext. intros k.
    by rewrite HsliceX, Hslicey. }
  rewrite !map_map. cbn [fst snd].
  split; [apply concat_pieces; lia|].
  split; [apply concat_pieces; unfold len in Hy; lia|].
  split.
  - apply Forall_forall. intros chunk Hin.
    apply list_elem_of_In, in_map_iff in Hin as (k & <- & Hk).
    apply in_seq in Hk. cbn [fst snd]. unfold len in *.
    rewrite !piece_length. nia.
  - unfold len. rewrite length_map, length_seq. lia.
Qed.
End SplitFacts.

Section SplitExamples.

Lemma X21_chunks_cover_the_frame_witness :
  exists chunks,
    @DistributedDataProcessing.split Demo.runtime Samples.frame 2
    = inr chunks /\
    concat chunks = Samples.frame /\
    Forall (fun chunk => 1 <= len chunk <= len Samples.frame / 2) chunks /\
    (forall i chunk,
       chunks !! i = Some chunk -> (S i < length chunks)%nat ->
       len chunk = len Samples.frame / 2) /\
    2 <= len chunks < 2 * 2 /\
    (len Samples.frame mod 2 = 0 -> len chunks = 2).
Proof.
  apply (@X21_chunks_cover_the_frame Demo.runtime Samples.frame 2).
  vm_compute. split; discriminate.
Defined.


Lemma X23_parallel_rejects_bad_worker_counts_witness :
  @DistributedDataProcessing.process_parallel Demo.runtime Samples.row_sum
    Samples.frame 6
  = inl ValueError.
Proof.
  apply (@X23_parallel_rejects_bad_worker_counts Demo.runtime
           Samples.row_sum Samples.frame 6).
  right. vm_compute. reflexivity.
Defined.

Lemma X24_training_chunks_keep_rows_and_labels_together_witness :
  exists chunks,
    @DistributedTraining.split Demo.runtime Samples.frame [0; 1; 0; 1; 1] 2
    = inr chunks /\
    concat (map fst chunks) = Samples.frame /\
    concat (map snd chunks) = [0; 1; 0; 1; 1] /\
    Forall (fun chunk => len (fst chunk) = len (snd chunk)
                         /\ 1 <= len (fst chunk)) chunks /\
    2 <= len chunks < 2 * 2.
Proof.
  apply (@X24_training_chunks_keep_rows_and_labels_together Demo.runtime
           Samples.frame [0; 1; 0; 1; 1] 2).
  - vm_compute. split; discriminate.
  - reflexivity.
Defined.
End SplitExamples.
